(** * The day-view layout engine of [src/components/DayView.tsx]

    A shallow embedding of the layout computation done by the [DayView]
    component: time parsing, the split stage, the continuation merge, the
    overlap annotation and the colour lookup, followed by the properties the
    specification states about them.

    Conventions of the embedding.
    - A JavaScript [number] is an exact rational extended with [Infinity],
      [-Infinity] and [NaN]; finite values are kept in lowest terms, so that
      Leibniz equality is numeric equality. Rounding and overflow of binary64
      are not modelled, and [-0] is identified with [0].
    - A JavaScript string is a [string] of characters below 256; every
      pattern of the source ([\d], [[A-Z]], [\b], [':'], ['\n']) only
      distinguishes ASCII characters.
    - Objects live in a store; an array holds references into it. *)

From Stdlib Require Import ZArith QArith Lqa String Ascii List Lia.
From stdpp Require Import base option list sorting gmap strings pretty.

Local Open Scope Z_scope.

(** ** Numbers *)

Inductive number : Type :=
| Fin (q : Q)
| PosInf
| NegInf
| NaN.

Module Num.

Definition of_Z (z : Z) : number := Fin (inject_Z z).

Definition Qlt_bool (x y : Q) : bool := negb (Qle_bool y x).

Definition neg (a : number) : number :=
  match a with
  | Fin x => Fin (Qred (- x))
  | PosInf => NegInf
  | NegInf => PosInf
  | NaN => NaN
  end.

Definition add (a b : number) : number :=
  match a, b with
  | NaN, _ | _, NaN => NaN
  | Fin x, Fin y => Fin (Qred (x + y))
  | PosInf, NegInf | NegInf, PosInf => NaN
  | PosInf, _ | _, PosInf => PosInf
  | NegInf, _ | _, NegInf => NegInf
  end.

(** IEEE subtraction is addition of the opposite. *)
Definition sub (a b : number) : number := add a (neg b).

(** Sign of a number: [Some Gt], [Some Eq], [Some Lt], or [None] for NaN. *)
Definition sign (a : number) : option comparison :=
  match a with
  | Fin x => Some (Qcompare x 0)
  | PosInf => Some Gt
  | NegInf => Some Lt
  | NaN => None
  end.

Definition signed_inf (s : comparison) : number :=
  match s with Gt => PosInf | Lt => NegInf | Eq => NaN end.

Definition mul (a b : number) : number :=
  match a, b with
  | Fin x, Fin y => Fin (Qred (x * y))
  | _, _ =>
      match sign a, sign b with
      | Some sa, Some sb =>
          match sa, sb with
          | Eq, _ | _, Eq => NaN
          | Gt, s | s, Gt => signed_inf s
          | Lt, Lt => PosInf
          end
      | _, _ => NaN
      end
  end.

Definition div (a b : number) : number :=
  match a, b with
  | NaN, _ | _, NaN => NaN
  | Fin x, Fin y =>
      if Qeq_bool y 0 then signed_inf (Qcompare x 0)
      else Fin (Qred (x / y))
  | Fin _, _ => Fin 0
  | _, Fin y =>
      match sign a, Qcompare y 0 with
      | Some Lt, Lt => PosInf
      | Some Lt, _ => NegInf
      | _, Lt => NegInf
      | _, _ => PosInf
      end
  | _, _ => NaN
  end.

(** [a < b]; false as soon as one side is NaN. *)
Definition ltb (a b : number) : bool :=
  match a, b with
  | NaN, _ | _, NaN => false
  | Fin x, Fin y => Qlt_bool x y
  | NegInf, NegInf | PosInf, _ | _, NegInf => false
  | NegInf, _ | _, PosInf => true
  end.

(** [a <= b]; false as soon as one side is NaN. *)
Definition leb (a b : number) : bool :=
  match a, b with
  | NaN, _ | _, NaN => false
  | Fin x, Fin y => Qle_bool x y
  | NegInf, _ | _, PosInf => true
  | PosInf, _ | _, NegInf => false
  end.

(** The operators [>] and [>=] of the source. *)
Definition gtb (a b : number) : bool := ltb b a.
Definition geb (a b : number) : bool := leb b a.

Definition is_nan (a : number) : bool :=
  match a with NaN => true | _ => false end.

Definition eqb (a b : number) : bool :=
  match a, b with
  | Fin x, Fin y => Qeq_bool x y
  | PosInf, PosInf | NegInf, NegInf => true
  | _, _ => false
  end.

End Num.

Declare Scope num_scope.
Delimit Scope num_scope with num.
Bind Scope num_scope with number.
Infix "+" := Num.add : num_scope.
Infix "-" := Num.sub : num_scope.
Infix "*" := Num.mul : num_scope.
Infix "/" := Num.div : num_scope.
Infix ">=?" := Num.geb (at level 70) : num_scope.
Infix ">?" := Num.gtb (at level 70) : num_scope.
Infix "<?" := Num.ltb (at level 70) : num_scope.
Infix "<=?" := Num.leb (at level 70) : num_scope.

(** ** Strings *)

Module Str.

Definition chars (s : string) : list ascii := list_ascii_of_string s.
Definition of_chars (l : list ascii) : string := string_of_list_ascii l.

Definition code (c : ascii) : nat := nat_of_ascii c.

Definition between (lo hi : nat) (c : ascii) : bool :=
  (Nat.leb lo (code c) && Nat.leb (code c) hi)%bool.

(** [\d] *)
Definition is_digit (c : ascii) : bool := between 48 57 c.
(** [[A-Z]] *)
Definition is_upper (c : ascii) : bool := between 65 90 c.
Definition is_lower (c : ascii) : bool := between 97 122 c.
(** [\w], the characters between which [\b] sees no boundary. *)
Definition is_word (c : ascii) : bool :=
  (is_digit c || is_upper c || is_lower c || Nat.eqb (code c) 95)%bool.

(** White space and line terminators below 256. *)
Definition is_space (c : ascii) : bool :=
  (between 9 13 c || Nat.eqb (code c) 32 || Nat.eqb (code c) 160)%bool.

Definition ceqb (a b : ascii) : bool := Ascii.eqb a b.

(** [span p l] is the longest prefix of [l] satisfying [p], and the rest. *)
Fixpoint span (p : ascii -> bool) (l : list ascii)
  : list ascii * list ascii :=
  match l with
  | c :: l' =>
      if p c then let '(a, b) := span p l' in (c :: a, b) else ([], l)
  | [] => ([], [])
  end.

Definition trim (l : list ascii) : list ascii :=
  rev (snd (span is_space (rev (snd (span is_space l))))).

(** [String.prototype.split] with a one-character separator. *)
Fixpoint split_chars (sep : ascii) (l : list ascii) : list (list ascii) :=
  match l with
  | [] => [[]]
  | c :: l' =>
      if ceqb c sep then [] :: split_chars sep l'
      else match split_chars sep l' with
           | seg :: segs => (c :: seg) :: segs
           | [] => [[c]]
           end
  end.

Definition split (sep : ascii) (s : string) : list string :=
  map of_chars (split_chars sep (chars s)).

(** Truthiness of a string: [Boolean(s)]. *)
Definition truthy (s : string) : bool :=
  match s with EmptyString => false | _ => true end.

End Str.

(** ** [Number(string)] *)

Module StringToNumber.
Import Str.

Definition digit_val (c : ascii) : Z :=
  if is_digit c then Z.of_nat (code c - 48)
  else if is_upper c then Z.of_nat (code c - 55)
  else Z.of_nat (code c - 87).

Definition is_digit_of (base : Z) (c : ascii) : bool :=
  ((is_digit c || between 65 70 c || between 97 102 c)
   && Z.ltb (digit_val c) base)%bool.

Definition digits_val (base : Z) (ds : list ascii) : Z :=
  fold_left (fun acc c => base * acc + digit_val c) ds 0.

Definition radix_literal (base : Z) (ds : list ascii) : number :=
  match ds with
  | [] => NaN
  | _ => if forallb (is_digit_of base) ds
         then Num.of_Z (digits_val base ds) else NaN
  end.

(** [0x], [0o] and [0b] literals; [None] when there is no such prefix. *)
Definition non_decimal (l : list ascii) : option number :=
  match l with
  | "0"%char :: p :: ds =>
      if (ceqb p "x" || ceqb p "X")%bool then Some (radix_literal 16 ds)
      else if (ceqb p "o" || ceqb p "O")%bool then Some (radix_literal 8 ds)
      else if (ceqb p "b" || ceqb p "B")%bool then Some (radix_literal 2 ds)
      else None
  | _ => None
  end.

(** The exponent part: nothing, or [e] with an optional sign and digits. *)
Definition exponent (l : list ascii) : option Z :=
  match l with
  | [] => Some 0
  | e :: l' =>
      if (ceqb e "e" || ceqb e "E")%bool then
        let '(neg, ds) :=
          match l' with
          | "-"%char :: ds => (true, ds)
          | "+"%char :: ds => (false, ds)
          | _ => (false, l')
          end in
        match ds with
        | [] => None
        | _ => if forallb is_digit ds
               then Some (if neg then - digits_val 10 ds
                          else digits_val 10 ds)
               else None
        end
      else None
  end.

Definition unsigned_decimal (l : list ascii) : option Q :=
  let '(ip, r1) := span is_digit l in
  let '(fp, r2) :=
    match r1 with
    | "."%char :: r => span is_digit r
    | _ => ([], r1)
    end in
  match ip ++ fp with
  | [] => None
  | ds =>
      match exponent r2 with
      | Some e =>
          Some (Qred (inject_Z (digits_val 10 ds)
                      * Qpower (inject_Z 10) (e - Z.of_nat (length fp))))
      | None => None
      end
  end.

Definition str_decimal (l : list ascii) : number :=
  let '(neg, r) :=
    match l with
    | "-"%char :: r => (true, r)
    | "+"%char :: r => (false, r)
    | _ => (false, l)
    end in
  if bool_decide (r = chars "Infinity")
  then (if neg then NegInf else PosInf)
  else match unsigned_decimal r with
       | Some q => if neg then Num.neg (Fin q) else Fin q
       | None => NaN
       end.

Definition of_chars (l : list ascii) : number :=
  match trim l with
  | [] => Fin 0
  | t => match non_decimal t with
         | Some n => n
         | None => str_decimal t
         end
  end.

End StringToNumber.

(** [Number(s)] for a string [s]. *)
Definition Number (s : string) : number :=
  StringToNumber.of_chars (Str.chars s).

(** [ToNumber] of a possibly [undefined] number. *)
Definition ToNumber (v : option number) : number := default NaN v.

(** ** Time normalization *)

(** [convertTimeToNumber], lines 34-37. *)
Definition convertTimeToNumber (timeStr : string) : number :=
  let parts := map Number (Str.split ":" timeStr) in
  let hours := parts !! 0%nat in
  let minutes := parts !! 1%nat in
  (ToNumber hours + ToNumber minutes / Num.of_Z 60)%num.

(** The position mapping of lines 85 and 68: [((h - 7) / 13) * 100]. *)
Definition position (h : number) : number :=
  ((h - Num.of_Z 7) / Num.of_Z 13 * Num.of_Z 100)%num.

(** The span mapping of lines 86 and 130: [((e - s) / 13) * 100]. *)
Definition span_percent (s e : number) : number :=
  ((e - s) / Num.of_Z 13 * Num.of_Z 100)%num.

(** ** Data model *)

Module TimeSlot.
(** Modelled from the spec: the [TimeSlot] declaration of [../types] is not
    part of the sources; the spec gives [start], [end] and an optional
    [value], and the component reads exactly these three fields. *)
Record t : Type := mk
  { start : string;
    end_ : string;
    value : option string }.
End TimeSlot.

(** Modelled from the spec: the [DaySchedule] declaration of [../types] is
    not part of the sources; the component only reads [schedule.data], the
    ordered sequence of slots. *)
Record DaySchedule : Type := { data : list TimeSlot.t }.

(** [interface PositionedEvent], lines 21-32. *)
Record PositionedEvent : Type := mkEvent
  { start : string;
    end_ : string;
    value : string;
    startPosition : number;
    duration : number;
    isOverlapping : option bool;
    splitIndex : option nat;
    totalSplits : option nat;
    isContinuation : option bool;
    continuationGroup : option string }.

(** [{...event, end: e, duration: d}] *)
Definition with_end_duration (event : PositionedEvent) (e : string)
    (d : number) : PositionedEvent :=
  {| start := start event; end_ := e; value := value event;
     startPosition := startPosition event; duration := d;
     isOverlapping := isOverlapping event;
     splitIndex := splitIndex event; totalSplits := totalSplits event;
     isContinuation := isContinuation event;
     continuationGroup := continuationGroup event |}.

(** [event.isOverlapping = b] *)
Definition set_isOverlapping (b : option bool) (event : PositionedEvent)
    : PositionedEvent :=
  {| start := start event; end_ := end_ event; value := value event;
     startPosition := startPosition event; duration := duration event;
     isOverlapping := b;
     splitIndex := splitIndex event; totalSplits := totalSplits event;
     isContinuation := isContinuation event;
     continuationGroup := continuationGroup event |}.

#[global] Instance PositionedEvent_inhabited : Inhabited PositionedEvent :=
  populate (mkEvent EmptyString EmptyString EmptyString
              NaN NaN None None None None None).

(** The object store: a reference is an index into it. *)
Abbreviation ref := nat (only parsing).
Abbreviation heap := (list PositionedEvent) (only parsing).

(** ** Pattern matching on event text *)

Module Pattern.
Import Str.

(** The leftmost position at which [at_head] matches. *)
Fixpoint first_match (at_head : list ascii -> option (list ascii))
    (l : list ascii) : option (list ascii) :=
  match at_head l with
  | Some m => Some m
  | None =>
      match l with
      | [] => None
      | _ :: l' => first_match at_head l'
      end
  end.

(** [/CE \d[A-Z] \d{3}/] anchored at the head of [l]. *)
Definition continuation_at (l : list ascii) : option (list ascii) :=
  match l with
  | c :: e :: s1 :: d :: u :: s2 :: d1 :: d2 :: d3 :: _ =>
      if (ceqb c "C" && ceqb e "E" && ceqb s1 " "
          && is_digit d && is_upper u && ceqb s2 " "
          && is_digit d1 && is_digit d2 && is_digit d3)%bool
      then Some (take 9 l) else None
  | _ => None
  end.

(** [value.match(/CE \d[A-Z] \d{3}/)?.[0]], line 98. *)
Definition continuation_key (value : string) : option string :=
  of_chars <$> first_match continuation_at (chars value).

Definition is_word_opt (c : option ascii) : bool :=
  match c with Some c => is_word c | None => false end.

(** [/\b\d{3}\b/]: [prev] is the character before [l], if any. *)
Fixpoint course_code_from (prev : option ascii) (l : list ascii)
  : option (list ascii) :=
  match l with
  | [] => None
  | c :: l' =>
      match l with
      | d1 :: d2 :: d3 :: rest =>
          if (negb (is_word_opt prev)
              && is_digit d1 && is_digit d2 && is_digit d3
              && negb (is_word_opt (head rest)))%bool
          then Some [d1; d2; d3]
          else course_code_from (Some c) l'
      | _ => course_code_from (Some c) l'
      end
  end.

(** [value.match(/\b\d{3}\b/)], line 47; the result is [match[0]]. *)
Definition course_code (value : string) : option string :=
  of_chars <$> course_code_from None (chars value).

End Pattern.

(** ** [Array.prototype.sort] *)

Section Array_sort.
Context {A : Type} (comparefn : A -> A -> number).

(** The sort is stable, and a comparator result of [NaN] counts as [+0]:
    an element only moves behind another when [comparefn] is positive. For
    a comparator that is not a consistent order the language leaves the
    resulting order to the implementation; this is one such order. *)
Fixpoint sort_insert (x : A) (l : list A) : list A :=
  match l with
  | [] => [x]
  | y :: l' =>
      if (comparefn x y >? Num.of_Z 0)%num then y :: sort_insert x l'
      else x :: l
  end.

Definition Array_sort (l : list A) : list A := foldr sort_insert [] l.
End Array_sort.

(** ** Stage 1: split and normalize, lines 79-101 *)

(** [splitEventValue], lines 52-54. *)
Definition splitEventValue (value : string) : list string :=
  List.filter Str.truthy (Str.split "010" value).

(** The filter predicate of line 80: [Boolean(slot.value)]. *)
Definition has_value (slot : TimeSlot.t) : bool :=
  match TimeSlot.value slot with
  | Some v => Str.truthy v
  | None => false
  end.

(** The body of the [flatMap] callback, lines 81-100: the objects created
    for one slot. *)
Definition slot_events (slot : TimeSlot.t) : list PositionedEvent :=
  let startTime := convertTimeToNumber (TimeSlot.start slot) in
  let endTime := convertTimeToNumber (TimeSlot.end_ slot) in
  let startPosition := position startTime in
  let duration := span_percent startTime endTime in
  let values := splitEventValue (default EmptyString (TimeSlot.value slot)) in
  imap (fun index value =>
          {| start := TimeSlot.start slot;
             end_ := TimeSlot.end_ slot;
             value := value;
             startPosition := startPosition;
             duration := duration;
             isOverlapping := None;
             splitIndex := Some index;
             totalSplits := Some (length values);
             isContinuation := None;
             continuationGroup := Pattern.continuation_key value |})
       values.

(** The objects created by the [flatMap], in creation order. *)
Definition created_events (schedule : DaySchedule) : list PositionedEvent :=
  flat_map slot_events (List.filter has_value (data schedule)).

(** The comparator of line 101. *)
Definition by_startPosition (a b : PositionedEvent) : number :=
  (startPosition a - startPosition b)%num.

(** The store after stage 1 and the array [processedEvents]: the object
    created [i]-th has reference [i]; the array is the sorted array of
    references. *)
Definition split_stage (schedule : DaySchedule) : heap * list ref :=
  let h := created_events schedule in
  (h, Array_sort (fun a b => by_startPosition (h !!! a) (h !!! b))
                 (seq 0 (length h))).

(** ** Stage 2: continuation merge, lines 103-135 *)

(** The [forEach] callback of lines 104-111. The table is an object used
    as a map from keys to arrays of references; a key is a match of the
    continuation pattern, which never names a property that an empty object
    inherits. *)
Definition group_push (h : heap) (currentGroup : gmap string (list ref))
    (event : ref) : gmap string (list ref) :=
  match continuationGroup (h !!! event) with
  | Some k =>
      if Str.truthy k
      then <[k := default [] (currentGroup !! k) ++ [event]]> currentGroup
      else currentGroup
  | None => currentGroup
  end.

Definition build_groups (h : heap) (processedEvents : list ref)
    : gmap string (list ref) :=
  fold_left (group_push h) processedEvents ∅.

(** The [reduce] callback of lines 113-135; a merged event is a new object,
    allocated at the end of the store. *)
Definition merge_step (currentGroup : gmap string (list ref))
    (st : heap * list ref) (event : ref) : heap * list ref :=
  let '(h, acc) := st in
  let e := h !!! event in
  match continuationGroup e with
  | None => (h, acc ++ [event])
  | Some k =>
      if negb (Str.truthy k) then (h, acc ++ [event])
      else
        match currentGroup !! k with
        | None => (h, acc ++ [event])
        | Some group =>
            if (length group <=? 1)%nat then (h, acc ++ [event])
            else
              match head group, last group with
              | Some first, Some lastRef =>
                  if bool_decide (event = first) then
                    let lastEvent := h !!! lastRef in
                    let merged :=
                      with_end_duration e (end_ lastEvent)
                        (span_percent (convertTimeToNumber (start e))
                           (convertTimeToNumber (end_ lastEvent))) in
                    (h ++ [merged], acc ++ [length h])
                  else (h, acc)
              | _, _ => (h, acc)
              end
        end
  end.

Definition merge_stage (h : heap) (processedEvents : list ref)
    : heap * list ref :=
  fold_left (merge_step (build_groups h processedEvents))
            processedEvents (h, []).

(** ** Stage 3: overlap annotation, lines 137-146 *)

(** The test of lines 140-143. *)
Definition overlaps (event otherEvent : PositionedEvent) : bool :=
  negb ((startPosition otherEvent
           >=? startPosition event + duration event)%num
        || (startPosition event
              >=? startPosition otherEvent + duration otherEvent)%num).

(** The [filter] of lines 138-144. *)
Definition overlappingEvents (h : heap) (processedEvents : list ref)
    (index : nat) (event : ref) : list (nat * ref) :=
  List.filter
    (fun '(otherIndex, otherEvent) =>
       if bool_decide (otherIndex = index) then false
       else overlaps (h !!! event) (h !!! otherEvent))
    (imap pair processedEvents).

(** The [forEach] callback of lines 137-146: a write into the store. *)
Definition overlap_step (processedEvents : list ref) (h : heap)
    (ie : nat * ref) : heap :=
  let '(index, event) := ie in
  let flag :=
    (0 <? length (overlappingEvents h processedEvents index event))%nat in
  alter (set_isOverlapping (Some flag)) event h.

Definition overlap_stage (h : heap) (processedEvents : list ref) : heap :=
  fold_left (overlap_step processedEvents) (imap pair processedEvents) h.

(** ** The whole computation *)

Record Layout : Type :=
  { store : heap;
    processedEvents : list ref;
    mergedEvents : list ref }.

(** The computation of [DayView] from line 79 to line 146, for a schedule
    that is present. *)
Definition layout (schedule : DaySchedule) : Layout :=
  let '(h1, processed) := split_stage schedule in
  let '(h2, merged) := merge_stage h1 processed in
  {| store := overlap_stage h2 processed;
     processedEvents := processed;
     mergedEvents := merged |}.

(** The events the component renders (line 189): the objects the array
    [mergedEvents] refers to, as they stand after the overlap pass. *)
Definition rendered (schedule : DaySchedule) : list PositionedEvent :=
  let L := layout schedule in
  map (fun r => store L !!! r) (mergedEvents L).

(** The store as it stands between the merge and the overlap pass. *)
Definition merged_store (schedule : DaySchedule) : heap :=
  (merge_stage (created_events schedule) (split_stage schedule).2).1.

(** ** Colour lookup, lines 39-50 *)

(** The style descriptor: the component reads [bg], [border] and [text]. *)
Record ColorScheme : Type :=
  { bg : string; border : string; text : string }.

(** [l[i]] for an integer-valued index, or NaN ([None]): a property that is
    not an index of the array is [undefined]. *)
Definition array_get {A : Type} (l : list A) (i : option Z) : option A :=
  match i with
  | Some z => if z <? 0 then None else l !! Z.to_nat z
  | None => None
  end.

(** [index % len] on array indices; [None] is NaN. *)
Definition js_rem (index len : nat) : option Z :=
  if (len =? 0)%nat then None
  else Some (Z.of_nat index `mod` Z.of_nat len).

(** [index % len - 1], line 42: the remainder binds tighter than the
    subtraction. *)
Definition scheme_index (index len : nat) : option Z :=
  (fun r => r - 1) <$> js_rem index len.

Section Colors.
(** The constants of [../constants/courseCodes], which is not part of the
    sources, are parameters. *)
Variable COURSE_CODES : list string.
Variable COLOR_SCHEMES : list ColorScheme.
Variable DEFAULT_COLOR : ColorScheme.

(** The entries given to [new Map], lines 40-43. *)
Definition color_entries : list (string * option ColorScheme) :=
  imap (fun index code =>
          (code,
           array_get COLOR_SCHEMES
             (scheme_index index (length COLOR_SCHEMES))))
       COURSE_CODES.

(** [new Map(entries)]: entries are set in order, a later one replaces an
    earlier one with the same key; a key can be mapped to [undefined]. *)
Definition courseColorMap : gmap string (option ColorScheme) :=
  fold_left (fun m kv => <[kv.1 := kv.2]> m) color_entries ∅.

(** [getCourseColor], lines 46-50; a scheme is an object, hence truthy. *)
Definition getCourseColor (value : string) : ColorScheme :=
  match Pattern.course_code value with
  | None => DEFAULT_COLOR
  | Some code =>
      match courseColorMap !! code with
      | Some (Some scheme) => scheme
      | _ => DEFAULT_COLOR
      end
  end.
End Colors.

(** ** Vocabulary of the specification *)

(** A time string ["H:MM"] or ["HH:MM"] for the hour [H] and minute [M]. *)
Definition digit_char (d : nat) : ascii := ascii_of_nat (48 + d).

Definition two_digits (n : nat) : list ascii :=
  [digit_char (n / 10); digit_char (n mod 10)].

Definition time_HHMM (H M : nat) : string :=
  Str.of_chars (two_digits H ++ ":"%char :: two_digits M).

Definition time_HMM (H M : nat) : string :=
  Str.of_chars (digit_char H :: ":"%char :: two_digits M).

Definition is_time_string (t : string) (H M : nat) : Prop :=
  (H < 24)%nat /\ (M < 60)%nat /\
  (t = time_HHMM H M \/ ((H < 10)%nat /\ t = time_HMM H M)).

(** The real number [H + M/60]. *)
Definition hour_value (H M : nat) : Q :=
  (inject_Z (Z.of_nat H) + inject_Z (Z.of_nat M) / 60)%Q.

(** Whether [convertTimeToNumber t] is the number [H + M/60]. *)
Definition reads_as (t : string) (H M : nat) : bool :=
  match convertTimeToNumber t with
  | Fin q => Qeq_bool q (hour_value H M)
  | _ => false
  end.

(** The check of every hour and minute, in both spellings of the hour. *)
Definition all_times_read : bool :=
  forallb
    (fun H =>
       forallb
         (fun M =>
            reads_as (time_HHMM H M) H M
            && (if (H <? 10)%nat then reads_as (time_HMM H M) H M else true))
         (seq 0 60))
    (seq 0 24).

(** The non-empty lines of a text: its maximal non-empty runs of characters
    other than the line feed. [cur] is the run being read, reversed. *)
Fixpoint line_runs (cur : list ascii) (l : list ascii) : list (list ascii) :=
  match l with
  | [] => match cur with [] => [] | _ => [rev cur] end
  | c :: l' =>
      if Str.ceqb c "010" then
        match cur with
        | [] => line_runs [] l'
        | _ => rev cur :: line_runs [] l'
        end
      else line_runs (c :: cur) l'
  end.

Definition non_empty_lines (text : string) : list string :=
  map Str.of_chars (line_runs [] (Str.chars text)).

(** The non-empty lines of the value of a slot. *)
Definition slot_lines (slot : TimeSlot.t) : list string :=
  non_empty_lines (default EmptyString (TimeSlot.value slot)).

(** The hour and minute parts of a time string, as [Number] reads them. *)
Definition time_parts (t : string) : list number :=
  map Number (Str.split ":" t).

(** A time string whose hour or minute part is not a number. *)
Definition malformed (t : string) : Prop :=
  ToNumber (time_parts t !! 0%nat) = NaN \/
  ToNumber (time_parts t !! 1%nat) = NaN.

(** The pre-merge events, in the order of the array. *)
Definition pre_merge_events (schedule : DaySchedule) : list PositionedEvent :=
  map (fun r => created_events schedule !!! r)
      (processedEvents (layout schedule)).

(** The continuation group of key [k]: the events of the array carrying
    that key, in array order. *)
Definition group_members (h : heap) (events : list ref) (k : string)
    : list ref :=
  List.filter
    (fun r => bool_decide (continuationGroup (h !!! r) = Some k)) events.

(** The merged event of a group: the first event with the end of the last
    one and the duration of the whole span. *)
Definition merged_event (first last : PositionedEvent) : PositionedEvent :=
  with_end_duration first (end_ last)
    (span_percent (convertTimeToNumber (start first))
                  (convertTimeToNumber (end_ last))).

(** What the specification says happens to an event of the pre-merge
    array. *)
Inductive role : Type :=
| Pass                       (* no key, or a group of size at most 1 *)
| Head (lastRef : ref)       (* first of a group of size at least 2 *)
| Dropped.                   (* another member of such a group *)

Definition role_of (h : heap) (events : list ref) (r : ref) : role :=
  match continuationGroup (h !!! r) with
  | None => Pass
  | Some k =>
      let group := group_members h events k in
      if (length group <=? 1)%nat then Pass
      else match head group, last group with
           | Some first, Some lastRef =>
               if bool_decide (r = first) then Head lastRef else Dropped
           | _, _ => Dropped
           end
  end.

Definition survives (h : heap) (events : list ref) (r : ref) : bool :=
  match role_of h events r with Dropped => false | _ => true end.


(** Ascending keys, ties in the order of the references, which is the order
    of creation. *)
Definition key_order (key : ref -> number) (a b : ref) : Prop :=
  (key a <=? key b)%num = true /\
  ((key b <=? key a)%num = true -> (a < b)%nat).

(** Ascending [startPosition], ties in creation order. *)
Definition in_order (h : heap) : ref -> ref -> Prop :=
  key_order (fun r => startPosition (h !!! r)).

Definition ascending (l : list PositionedEvent) : Prop :=
  StronglySorted
    (fun a b => (startPosition a <=? startPosition b)%num = true) l.



(** ** Hour labels and the time marker, lines 10-19, 64-69, 157 and 184 *)

(** The text a template string gives for a natural number: its decimal
    digits. *)
Definition String_of_nat (n : nat) : string := pretty n.

(** The callback of [Array.from], lines 10-19, at index [i]. *)
Definition timeSlot_label (i : nat) : string :=
  let hour := (i + 7)%nat in
  if (hour =? 12)%nat then "12 PM"
  else if (12 <? hour)%nat then String_of_nat (hour - 12) +:+ " PM"
  else String_of_nat hour +:+ " AM".

(** [timeSlots], lines 10-19. *)
Definition timeSlots : list string := timeSlot_label <$> seq 0 14.

(** The [top] of the label and of the grid line of index [index], lines 157
    and 184: [(index / (timeSlots.length - 1)) * 100]. *)
Definition label_top (index : nat) : number :=
  (Num.of_Z (Z.of_nat index)
   / Num.of_Z (Z.of_nat (length timeSlots) - 1) * Num.of_Z 100)%num.

(** [currentTimePosition], lines 64-69, for the hours and minutes the clock
    gives. *)
Definition currentTimePosition (hours minutes : nat) : number :=
  let timeInHours :=
    (Num.of_Z (Z.of_nat hours)
     + Num.of_Z (Z.of_nat minutes) / Num.of_Z 60)%num in
  ((timeInHours - Num.of_Z 7) / Num.of_Z 13 * Num.of_Z 100)%num.

(** ** Horizontal placement of an event, lines 191-212 *)

(** A style value: a literal of the source, or one of its two template
    strings, kept with the number that fills it (the decimal text of that
    number is not modelled). *)
Inductive style_value : Type :=
| Literal (s : string)
| Calc_percent_minus_1rem (p : number)   (* calc(p% - 1rem) *)
| Calc_percent (p : number).             (* calc(p%) *)

(** A possibly [undefined] count used as a number. *)
Definition count_number (n : option nat) : number :=
  ToNumber ((fun k => Num.of_Z (Z.of_nat k)) <$> n).

(** Truthiness of the flag. *)
Definition flag_truthy (b : option bool) : bool := default false b.

(** [width], lines 191-195. *)
Definition event_width (event : PositionedEvent) : style_value :=
  if (1 <? default 1%nat (totalSplits event))%nat
  then Calc_percent_minus_1rem
         (Num.of_Z 100
          / Num.of_Z (Z.of_nat (default 1%nat (totalSplits event))))%num
  else if flag_truthy (isOverlapping event)
       then Literal "calc(50% - 1rem)"
       else Literal "calc(100% - 1rem)".

(** [left], lines 209-211. *)
Definition event_left (event : PositionedEvent) : style_value :=
  if (1 <? default 1%nat (totalSplits event))%nat
  then Calc_percent
         (count_number (splitIndex event) * Num.of_Z 100
          / count_number (totalSplits event))%num
  else if flag_truthy (isOverlapping event)
       then Literal "50%"
       else Literal "0".

(** The name of an hour on the 12-hour clock. *)
Definition twelve_hour_label (hour : nat) : string :=
  String_of_nat ((hour + 11) mod 12 + 1)
  +:+ (if (hour mod 24 <? 12)%nat then " AM" else " PM").

(** ** The scenarios of the specification *)

Definition slot (start end_ value : string) : TimeSlot.t :=
  TimeSlot.mk start end_ (Some value).

(** Scenario 1: one slot alone in the day. *)
Definition scenario1 : DaySchedule :=
  {| data := [slot "09:00" "10:00" "CE 1A 101"] |}.

(** Scenario 2: one slot with two lines. *)
Definition scenario2 : DaySchedule :=
  {| data := [slot "09:00" "10:00"
                ("CE 1A 101" +:+ String "010" "MATH 2B 210")] |}.

(** Scenario 3: two slots of the same continuation group. *)
Definition scenario3 : DaySchedule :=
  {| data := [slot "09:00" "10:00" "CE 1A 101";
              slot "10:00" "11:00" "CE 1A 101"] |}.

(** Scenario 4: two slots overlapping in time. *)
Definition scenario4 : DaySchedule :=
  {| data := [slot "09:00" "10:00" "A"; slot "09:30" "10:30" "B"] |}.

(** Scenario 5: no slot. *)
Definition scenario5 : DaySchedule := {| data := [] |}.

(** * Properties *)

(** ** Numbers *)

Module NumFacts.

Lemma bool_eq_iff (a b : bool) : (a = true <-> b = true) -> a = b.
Proof. destruct a, b; intuition congruence. Qed.

Lemma Qlt_bool_iff (x y : Q) : Num.Qlt_bool x y = true <-> (x < y)%Q.
Proof.
  unfold Num.Qlt_bool. rewrite negb_true_iff.
  split.
  - intros H. apply Qnot_le_lt. intros Hle.
    apply Qle_bool_iff in Hle. congruence.
  - intros H. destruct (Qle_bool y x) eqn:E; [|reflexivity].
    apply Qle_bool_iff in E. exfalso. apply (Qlt_not_le _ _ H E).
Qed.

Lemma leb_total (a b : number) :
  a <> NaN -> b <> NaN -> Num.leb a b = true \/ Num.leb b a = true.
Proof.
  destruct a as [x| | |], b as [y| | |]; simpl; intros; try congruence;
    auto.
  destruct (Qlt_le_dec x y) as [H1|H1].
  - left. apply Qle_bool_iff. apply Qlt_le_weak, H1.
  - right. apply Qle_bool_iff, H1.
Qed.

Lemma leb_trans (a b c : number) :
  Num.leb a b = true -> Num.leb b c = true -> Num.leb a c = true.
Proof.
  destruct a as [x| | |], b as [y| | |], c as [z| | |]; simpl;
    try congruence.
  rewrite !Qle_bool_iff. apply Qle_trans.
Qed.

Lemma leb_refl (a : number) : a <> NaN -> Num.leb a a = true.
Proof.
  destruct a; simpl; try congruence. intros _. apply Qle_bool_iff.
  apply Qle_refl.
Qed.

Lemma leb_not_NaN (a b : number) :
  Num.leb a b = true -> a <> NaN /\ b <> NaN.
Proof. destruct a, b; simpl; split; congruence. Qed.

Lemma ltb_leb (a b : number) : Num.ltb a b = true -> Num.leb a b = true.
Proof.
  destruct a as [x| | |], b as [y| | |]; simpl; try congruence.
  rewrite Qlt_bool_iff, Qle_bool_iff. apply Qlt_le_weak.
Qed.

Lemma ltb_not_leb (a b : number) :
  Num.ltb a b = true -> Num.leb b a = false.
Proof.
  destruct a as [x| | |], b as [y| | |]; simpl; try congruence.
  unfold Num.Qlt_bool. apply negb_true_iff.
Qed.

Lemma not_ltb_leb (a b : number) :
  a <> NaN -> b <> NaN -> Num.ltb b a = false -> Num.leb a b = true.
Proof.
  destruct a as [x| | |], b as [y| | |]; simpl; try congruence.
  unfold Num.Qlt_bool. intros _ _. apply negb_false_iff.
Qed.

(** On numbers, the sign of [a - b] tells whether [b < a]. *)
Lemma gtb_sub (a b : number) :
  a <> NaN -> b <> NaN ->
  Num.gtb (a - b)%num (Num.of_Z 0) = Num.ltb b a.
Proof.
  destruct a as [x| | |], b as [y| | |]; simpl; try congruence;
    intros _ _; try reflexivity.
  unfold Num.gtb, Num.of_Z. simpl. apply bool_eq_iff.
  rewrite !Qlt_bool_iff, !Qred_correct.
  change (inject_Z 0) with 0%Q. split; intros H.
  - apply Qplus_lt_l with (z := (- y)%Q).
    rewrite Qplus_opp_r. exact H.
  - apply Qplus_lt_l with (z := (- y)%Q) in H.
    rewrite Qplus_opp_r in H. exact H.
Qed.

End NumFacts.

(** ** The sort *)

Section Array_sort_facts.
Context {A : Type} (comparefn : A -> A -> number).

Lemma sort_insert_perm (x : A) (l : list A) :
  sort_insert comparefn x l ≡ₚ x :: l.
Proof.
  induction l as [|y l IH]; simpl; [done|].
  case_match; [|done].
  rewrite IH. apply Permutation_swap.
Qed.

Lemma Array_sort_perm (l : list A) : Array_sort comparefn l ≡ₚ l.
Proof.
  induction l as [|x l IH]; simpl; [done|].
  rewrite sort_insert_perm. by rewrite IH.
Qed.

Lemma Array_sort_length (l : list A) :
  length (Array_sort comparefn l) = length l.
Proof. by rewrite Array_sort_perm. Qed.
End Array_sort_facts.

(** Sorting references by a key that is never NaN: the result is ascending
    and elements with equal keys stay in their input order. *)
Section Sort_by_key.
Variable key : nat -> number.

Local Abbreviation cmp := (fun a b : nat => (key a - key b)%num).

Lemma sort_insert_sorted (x : nat) (l : list nat) :
  key x <> NaN ->
  Forall (fun y => key y <> NaN) l ->
  Forall (fun y => (x < y)%nat) l ->
  StronglySorted (key_order key) l ->
  StronglySorted (key_order key) (sort_insert cmp x l).
Proof.
  intros Hx Hnan Hlt Hs.
  induction Hs as [|y l Hs IH Hy]; cbn [sort_insert].
  - repeat constructor.
  - inversion Hnan as [|? ? Hy' Hnan']; subst.
    inversion Hlt as [|? ? Hxy Hlt']; subst.
    rewrite NumFacts.gtb_sub by done.
    destruct (Num.ltb (key y) (key x)) eqn:E.
    + constructor; [by apply IH|].
      rewrite sort_insert_perm. constructor; [|done].
      split; [by apply NumFacts.ltb_leb|].
      intros H. apply NumFacts.ltb_not_leb in E. congruence.
    + assert (Hle : Num.leb (key x) (key y) = true)
        by by apply NumFacts.not_ltb_leb.
      constructor; [by constructor|].
      constructor; [done|].
      rewrite Forall_forall in Hy, Hlt'. apply Forall_forall.
      intros z Hz. destruct (Hy z Hz) as [Hyz _]. split.
      * by eapply NumFacts.leb_trans.
      * intros _. by apply Hlt'.
Qed.

Lemma Array_sort_sorted (l : list nat) :
  Forall (fun y => key y <> NaN) l ->
  StronglySorted lt l ->
  StronglySorted (key_order key) (Array_sort cmp l).
Proof.
  intros Hnan Hs. induction Hs as [|x l Hs IH Hx]; simpl.
  - constructor.
  - inversion Hnan; subst.
    apply sort_insert_sorted; [done| | |by apply IH].
    + by rewrite Array_sort_perm.
    + by rewrite Array_sort_perm.
Qed.
End Sort_by_key.

(** ** Stage 1 *)

Lemma continuation_match_nonempty (l m : list ascii) :
  Pattern.first_match Pattern.continuation_at l = Some m -> m <> [].
Proof.
  induction l as [|c l IH]; [done|]. cbn [Pattern.first_match].
  destruct (Pattern.continuation_at (c :: l)) as [m'|] eqn:E; [|exact IH].
  intros [= ->]. unfold Pattern.continuation_at in E.
  repeat (destruct l as [|? l]; [done|]).
  case_match; [|done]. by injection E as <-.
Qed.

Lemma continuation_key_truthy (v k : string) :
  Pattern.continuation_key v = Some k -> Str.truthy k = true.
Proof.
  unfold Pattern.continuation_key. intros H.
  apply fmap_Some in H as (m & Hm & ->).
  apply continuation_match_nonempty in Hm. by destruct m.
Qed.

Lemma split_stage_perm (schedule : DaySchedule) :
  (split_stage schedule).2 ≡ₚ seq 0 (length (created_events schedule)).
Proof. apply Array_sort_perm. Qed.

Lemma split_stage_NoDup (schedule : DaySchedule) :
  NoDup (split_stage schedule).2.
Proof. rewrite split_stage_perm. apply NoDup_seq. Qed.

Lemma split_stage_bound (schedule : DaySchedule) (r : nat) :
  r ∈ (split_stage schedule).2 ->
  (r < length (created_events schedule))%nat.
Proof. rewrite split_stage_perm, elem_of_seq. lia. Qed.

Lemma slot_events_key (slot : TimeSlot.t) (e : PositionedEvent) (k : string) :
  e ∈ slot_events slot -> continuationGroup e = Some k ->
  Str.truthy k = true.
Proof.
  unfold slot_events. intros He Hk.
  apply list_elem_of_lookup in He as [i Hi].
  rewrite list_lookup_imap in Hi.
  apply fmap_Some in Hi as (v & _ & ->). simpl in Hk.
  by eapply continuation_key_truthy.
Qed.

Lemma created_events_elem (schedule : DaySchedule) (e : PositionedEvent) :
  e ∈ created_events schedule <->
  exists slot, slot ∈ data schedule /\ has_value slot = true /\
               e ∈ slot_events slot.
Proof.
  unfold created_events.
  rewrite list_elem_of_In, in_flat_map. split.
  - intros (slot & Hs & He). exists slot.
    apply filter_In in Hs as [Hs Hv].
    by rewrite !list_elem_of_In.
  - intros (slot & Hs & Hv & He). exists slot.
    rewrite filter_In, <- !list_elem_of_In. done.
Qed.

Lemma created_events_key (schedule : DaySchedule) (r : nat) (k : string) :
  (r < length (created_events schedule))%nat ->
  continuationGroup (created_events schedule !!! r) = Some k ->
  Str.truthy k = true.
Proof.
  intros Hr Hk.
  assert (He : created_events schedule !!! r ∈ created_events schedule).
  { apply list_elem_of_lookup. exists r.
    by apply list_lookup_lookup_total_lt. }
  apply created_events_elem in He as (slot & _ & _ & He).
  by eapply slot_events_key.
Qed.

Lemma created_events_fresh (schedule : DaySchedule) (e : PositionedEvent) :
  e ∈ created_events schedule -> isOverlapping e = None.
Proof.
  intros He. apply created_events_elem in He as (slot & _ & _ & He).
  unfold slot_events in He.
  apply list_elem_of_lookup in He as [i Hi].
  rewrite list_lookup_imap in Hi.
  by apply fmap_Some in Hi as (v & _ & ->).
Qed.

(** ** Stage 2 *)

Section Merge_facts.
Variable h1 : list PositionedEvent.
Variable pe : list nat.
Hypothesis pe_bound : forall r, r ∈ pe -> (r < length h1)%nat.
Hypothesis pe_keys : forall r k,
  r ∈ pe -> continuationGroup (h1 !!! r) = Some k -> Str.truthy k = true.

Lemma group_members_elem (l : list nat) (k : string) (r : nat) :
  r ∈ group_members h1 l k <->
  r ∈ l /\ continuationGroup (h1 !!! r) = Some k.
Proof.
  unfold group_members.
  rewrite !list_elem_of_In, filter_In, bool_decide_eq_true. done.
Qed.

(** The table built by the first loop maps a key to its group. *)
Lemma fold_group_push (l : list nat) (g0 : gmap string (list nat))
    (k : string) :
  Str.truthy k = true ->
  fold_left (group_push h1) l g0 !! k =
  match group_members h1 l k with
  | [] => g0 !! k
  | m => Some (default [] (g0 !! k) ++ m)
  end.
Proof.
  intros Hk. revert g0.
  induction l as [|r l IH]; intros g0; [done|].
  cbn [fold_left]. rewrite IH. unfold group_members.
  cbn [List.filter]. unfold group_push at 1 2.
  destruct (continuationGroup (h1 !!! r)) as [k'|] eqn:Ek.
  - destruct (decide (k' = k)) as [->|Hne].
    + rewrite Hk, bool_decide_eq_true_2 by done.
      rewrite lookup_insert_eq. simpl.
      destruct (List.filter _ l); [done|].
      by rewrite <- app_assoc.
    + rewrite bool_decide_eq_false_2 by congruence.
      destruct (Str.truthy k'); [|done].
      by rewrite lookup_insert_ne.
  - by rewrite bool_decide_eq_false_2.
Qed.

Lemma build_groups_lookup (k : string) :
  Str.truthy k = true ->
  build_groups h1 pe !! k =
  match group_members h1 pe k with [] => None | m => Some m end.
Proof.
  intros Hk. unfold build_groups. rewrite fold_group_push by done.
  rewrite lookup_empty. by destruct (group_members h1 pe k).
Qed.

Lemma role_Head_last (r lastRef : nat) :
  role_of h1 pe r = Head lastRef -> lastRef ∈ pe.
Proof.
  unfold role_of. destruct (continuationGroup (h1 !!! r)) as [k|]; [|done].
  case_match; [done|].
  destruct (head _); [|done].
  destruct (last (group_members h1 pe k)) as [x|] eqn:El; [|done].
  case_bool_decide; [|done]. intros [= <-].
  apply last_Some in El as [l' El].
  assert (Hx : x ∈ group_members h1 pe k)
    by (rewrite El; set_solver).
  by apply group_members_elem in Hx as [? _].
Qed.

(** One step of the [reduce], read through the roles. *)
Lemma merge_step_role (ex : list PositionedEvent) (acc : list nat)
    (r : nat) :
  r ∈ pe ->
  merge_step (build_groups h1 pe) (h1 ++ ex, acc) r =
  match role_of h1 pe r with
  | Pass => (h1 ++ ex, acc ++ [r])
  | Head lastRef =>
      ((h1 ++ ex) ++ [merged_event (h1 !!! r) (h1 !!! lastRef)],
       acc ++ [length (h1 ++ ex)])
  | Dropped => (h1 ++ ex, acc)
  end.
Proof.
  intros Hr. unfold merge_step.
  rewrite (lookup_total_app_l h1 ex r) by by apply pe_bound.
  pose proof (role_Head_last r) as Hlast.
  unfold role_of in *.
  destruct (continuationGroup (h1 !!! r)) as [k|] eqn:Ek; [|done].
  rewrite (pe_keys r k) by done. cbn [negb].
  rewrite build_groups_lookup by by eapply pe_keys.
  assert (Hm : r ∈ group_members h1 pe k)
    by by apply group_members_elem.
  destruct (group_members h1 pe k) as [|x g] eqn:Eg; [by inversion Hm|].
  destruct (length (x :: g) <=? 1)%nat; [done|].
  destruct (head (x :: g)) as [first|]; [|done].
  destruct (last (x :: g)) as [lastRef|]; [|done].
  case_bool_decide; [|done].
  rewrite (lookup_total_app_l h1 ex lastRef); [done|].
  apply pe_bound. by apply Hlast.
Qed.

(** The [reduce] as a whole: the store only grows, and the output array
    corresponds, in order, to the surviving events of the input array. *)
Lemma merge_fold (l : list nat) :
  (forall r, r ∈ l -> r ∈ pe) ->
  forall (ex : list PositionedEvent) (acc : list nat),
  exists (ex' : list PositionedEvent) (out : list nat),
    fold_left (merge_step (build_groups h1 pe)) l (h1 ++ ex, acc)
    = (h1 ++ ex ++ ex', acc ++ out) /\
    Forall2
      (fun m r =>
         match role_of h1 pe r with
         | Head lastRef =>
             (length h1 <= m)%nat /\
             (h1 ++ ex ++ ex') !! m
             = Some (merged_event (h1 !!! r) (h1 !!! lastRef))
         | _ => m = r
         end)
      out (List.filter (survives h1 pe) l).
Proof.
  induction l as [|r l IH]; intros Hl ex acc.
  - exists [], []. by rewrite !app_nil_r.
  - cbn [fold_left List.filter].
    rewrite merge_step_role by (apply Hl; set_solver).
    assert (Hl' : forall r', r' ∈ l -> r' ∈ pe)
      by (intros; apply Hl; set_solver).
    unfold survives at 1.
    destruct (role_of h1 pe r) as [|lastRef|] eqn:Er.
    + destruct (IH Hl' ex (acc ++ [r])) as (ex' & out & -> & HF).
      exists ex', (r :: out). rewrite <- app_assoc. split; [done|].
      constructor; [by rewrite Er|done].
    + rewrite <- app_assoc.
      destruct (IH Hl' (ex ++ [merged_event (h1 !!! r) (h1 !!! lastRef)])
                  (acc ++ [length (h1 ++ ex)]))
        as (ex' & out & -> & HF).
      exists (merged_event (h1 !!! r) (h1 !!! lastRef) :: ex'),
             (length (h1 ++ ex) :: out).
      rewrite <- !app_assoc in *. cbn [app] in *. split; [done|].
      constructor; [|done]. rewrite Er. split.
      * rewrite length_app. lia.
      * rewrite app_assoc. by rewrite list_lookup_middle.
    + destruct (IH Hl' ex acc) as (ex' & out & -> & HF).
      by exists ex', out.
Qed.

Lemma merge_stage_spec :
  exists (ex : list PositionedEvent),
    (merge_stage h1 pe).1 = h1 ++ ex /\
    Forall2
      (fun m r =>
         match role_of h1 pe r with
         | Head lastRef =>
             (length h1 <= m)%nat /\
             (h1 ++ ex) !! m
             = Some (merged_event (h1 !!! r) (h1 !!! lastRef))
         | _ => m = r
         end)
      (merge_stage h1 pe).2 (List.filter (survives h1 pe) pe).
Proof.
  destruct (merge_fold pe (fun _ H => H) [] []) as (ex & out & E & HF).
  rewrite (app_nil_r h1) in E. cbn [app] in E, HF.
  unfold merge_stage. rewrite E. by exists ex.
Qed.
End Merge_facts.

(** ** Stage 3 *)

Lemma set_isOverlapping_same (e : PositionedEvent) :
  set_isOverlapping (isOverlapping e) e = e.
Proof. by destruct e. Qed.

Lemma set_isOverlapping_twice (b b' : option bool) (e : PositionedEvent) :
  set_isOverlapping b (set_isOverlapping b' e) = set_isOverlapping b e.
Proof. done. Qed.

Lemma overlaps_set (b b' : option bool) (e o : PositionedEvent) :
  overlaps (set_isOverlapping b e) (set_isOverlapping b' o) = overlaps e o.
Proof. done. Qed.

Lemma fmap_snd_imap_pair {A : Type} (l : list A) : (imap pair l).*2 = l.
Proof.
  apply list_eq. intros i.
  rewrite list_lookup_fmap, list_lookup_imap. by destruct (l !! i).
Qed.

(** The flag is raised exactly when some other position of the array holds
    an event that passes the test. *)
Lemma overlap_flag_true (h : list PositionedEvent) (pe : list nat)
    (i r : nat) :
  (0 <? length (overlappingEvents h pe i r))%nat = true <->
  exists j o, pe !! j = Some o /\ j <> i /\
              overlaps (h !!! r) (h !!! o) = true.
Proof.
  rewrite Nat.ltb_lt. unfold overlappingEvents.
  remember (List.filter _ (imap pair pe)) as found eqn:E. split.
  - intros Hlen. destruct found as [|[j o] l]; [simpl in Hlen; lia|].
    pose proof (in_eq (j, o) l) as Hin. rewrite E in Hin.
    apply filter_In in Hin as [Hin Hp].
    apply list_elem_of_In, elem_of_lookup_imap in Hin
      as (j' & o' & [= -> ->] & Hj).
    exists j', o'. by case_bool_decide.
  - intros (j & o & Hj & Hne & Ho).
    assert (Hin : In (j, o) found).
    { rewrite E. apply filter_In. split.
      - apply list_elem_of_In. by apply elem_of_lookup_imap_2.
      - by rewrite bool_decide_eq_false_2. }
    destruct found; [done|]. simpl. lia.
Qed.

Section Overlap_facts.
Variable h2 : list PositionedEvent.
Variable pe : list nat.

(** What the pass preserves: every object is the original one up to its
    [isOverlapping] field. *)
Local Abbreviation same_but_flag h :=
  (Forall2 (fun e' e => exists b, e' = set_isOverlapping b e) h h2).

Lemma same_but_flag_total (h : list PositionedEvent) (r : nat) :
  same_but_flag h ->
  exists b, h !!! r = set_isOverlapping b (h2 !!! r).
Proof.
  intros Hinv. rewrite !list_lookup_total_alt.
  destruct (h2 !! r) as [e|] eqn:E.
  - destruct (Forall2_lookup_r _ _ _ _ _ Hinv E) as (e' & -> & b & ->).
    by exists b.
  - assert (h !! r = None) as ->.
    { apply lookup_ge_None. apply lookup_ge_None in E.
      by rewrite (Forall2_length _ _ _ Hinv). }
    exists (isOverlapping inhabitant). symmetry.
    apply set_isOverlapping_same.
Qed.

Lemma overlappingEvents_same (h : list PositionedEvent) (i r : nat) :
  same_but_flag h ->
  overlappingEvents h pe i r = overlappingEvents h2 pe i r.
Proof.
  intros Hinv. unfold overlappingEvents. apply List.filter_ext.
  intros [j o]. case_bool_decide; [done|].
  destruct (same_but_flag_total h r Hinv) as [b ->].
  destruct (same_but_flag_total h o Hinv) as [b' ->].
  apply overlaps_set.
Qed.

Lemma overlap_fold (l : list (nat * nat)) :
  forall h : list PositionedEvent,
  same_but_flag h -> NoDup l.*2 ->
  same_but_flag (fold_left (overlap_step pe) l h) /\
  (forall i r, (i, r) ∈ l -> (r < length h2)%nat ->
     isOverlapping (fold_left (overlap_step pe) l h !!! r)
     = Some (0 <? length (overlappingEvents h2 pe i r))%nat) /\
  (forall r, r ∉ l.*2 ->
     fold_left (overlap_step pe) l h !! r = h !! r).
Proof.
  induction l as [|[i r] l IH]; intros h Hinv Hnd.
  - split; [done|]. split; [|done]. intros i r Hin. inversion Hin.
  - cbn [fold_left]. rewrite fmap_cons in Hnd.
    apply NoDup_cons in Hnd as [Hr Hnd]. cbn [snd] in Hr.
    assert (Hinv1 : same_but_flag (overlap_step pe h (i, r))).
    { unfold overlap_step. apply Forall2_alter_l; [done|].
      intros e' e _ _ [b ->]. by eexists. }
    destruct (IH _ Hinv1 Hnd) as (Hinv' & Hflag & Hother).
    split; [done|]. split.
    + intros j o Hin Ho. apply elem_of_cons in Hin as [[= -> ->]|Hin].
      * rewrite list_lookup_total_alt, (Hother r Hr).
        unfold overlap_step. rewrite list_lookup_alter_eq.
        rewrite <- (Forall2_length _ _ _ Hinv) in Ho.
        destruct (lookup_lt_is_Some_2 h r Ho) as [e ->]. simpl.
        by rewrite overlappingEvents_same.
      * by apply Hflag.
    + intros o Ho. rewrite fmap_cons, not_elem_of_cons in Ho.
      destruct Ho as [Hne Ho]. cbn [snd] in Hne.
      rewrite (Hother o Ho). unfold overlap_step.
      by rewrite list_lookup_alter_ne.
Qed.

Hypothesis pe_NoDup : NoDup pe.
Hypothesis pe_bound : forall r, r ∈ pe -> (r < length h2)%nat.

Lemma same_but_flag_refl : same_but_flag h2.
Proof.
  apply Forall2_same_length_lookup_2; [done|].
  intros i e e' H1 H2. exists (isOverlapping e).
  rewrite H1 in H2. injection H2 as <-. symmetry.
  apply set_isOverlapping_same.
Qed.

Lemma overlap_stage_length :
  length (overlap_stage h2 pe) = length h2.
Proof.
  destruct (overlap_fold (imap pair pe) h2 same_but_flag_refl) as [H _].
  - by rewrite fmap_snd_imap_pair.
  - by apply Forall2_length in H.
Qed.

(** An event of the array receives its flag. *)
Lemma overlap_stage_flagged (i r : nat) :
  pe !! i = Some r ->
  overlap_stage h2 pe !!! r =
  set_isOverlapping
    (Some (0 <? length (overlappingEvents h2 pe i r))%nat) (h2 !!! r).
Proof.
  intros Hi.
  destruct (overlap_fold (imap pair pe) h2 same_but_flag_refl)
    as (Hinv & Hflag & _); [by rewrite fmap_snd_imap_pair|].
  fold (overlap_stage h2 pe) in Hinv, Hflag.
  assert (Hr : (r < length h2)%nat).
  { apply pe_bound, list_elem_of_lookup. by exists i. }
  specialize (Hflag i r (elem_of_lookup_imap_2 pair pe r i Hi) Hr).
  destruct (same_but_flag_total _ r Hinv) as [b Hb].
  rewrite Hb in Hflag |- *. simpl in Hflag. by rewrite Hflag.
Qed.

(** An object that is not in the array is left alone. *)
Lemma overlap_stage_other (m : nat) :
  m ∉ pe -> overlap_stage h2 pe !! m = h2 !! m.
Proof.
  intros Hm.
  destruct (overlap_fold (imap pair pe) h2 same_but_flag_refl)
    as (_ & _ & Hother); [by rewrite fmap_snd_imap_pair|].
  apply Hother. by rewrite fmap_snd_imap_pair.
Qed.
End Overlap_facts.

(** ** The stages put together *)

Lemma layout_eq (schedule : DaySchedule) :
  layout schedule =
  {| store := overlap_stage (merged_store schedule) (split_stage schedule).2;
     processedEvents := (split_stage schedule).2;
     mergedEvents :=
       (merge_stage (created_events schedule) (split_stage schedule).2).2 |}.
Proof.
  unfold layout, merged_store, split_stage. cbn [fst snd].
  by destruct (merge_stage _ _).
Qed.

Section Pipeline.
Variable schedule : DaySchedule.

Local Abbreviation h1 := (created_events schedule).
Local Abbreviation pe := (processedEvents (layout schedule)).
Local Abbreviation h2 := (merged_store schedule).
Local Abbreviation me := (mergedEvents (layout schedule)).

Lemma pe_eq : pe = (split_stage schedule).2.
Proof. by rewrite layout_eq. Qed.

Lemma h2_eq : h2 = (merge_stage h1 pe).1.
Proof. unfold merged_store. by rewrite pe_eq. Qed.

Lemma me_eq : me = (merge_stage h1 pe).2.
Proof. by rewrite layout_eq. Qed.

Lemma store_eq : store (layout schedule) = overlap_stage h2 pe.
Proof. by rewrite layout_eq. Qed.

Lemma pe_perm : pe ≡ₚ seq 0 (length h1).
Proof. rewrite pe_eq. apply split_stage_perm. Qed.

Lemma pe_NoDup : NoDup pe.
Proof. rewrite pe_perm. apply NoDup_seq. Qed.

Lemma pe_bound (r : nat) : r ∈ pe -> (r < length h1)%nat.
Proof. rewrite pe_perm, elem_of_seq. lia. Qed.

Lemma pe_keys (r : nat) (k : string) :
  r ∈ pe -> continuationGroup (h1 !!! r) = Some k -> Str.truthy k = true.
Proof. intros Hr. apply created_events_key. by apply pe_bound. Qed.

Lemma pe_lookup_total (r : nat) : r ∈ pe -> h1 !! r = Some (h1 !!! r).
Proof. intros Hr. by apply list_lookup_lookup_total_lt, pe_bound. Qed.

(** The merge only allocates: the pre-merge objects keep their place. *)
Lemma merged_store_spec :
  exists ex : list PositionedEvent,
    h2 = h1 ++ ex /\
    Forall2
      (fun m r =>
         match role_of h1 pe r with
         | Head lastRef =>
             (length h1 <= m)%nat /\
             h2 !! m = Some (merged_event (h1 !!! r) (h1 !!! lastRef))
         | _ => m = r
         end)
      me (List.filter (survives h1 pe) pe).
Proof.
  destruct (merge_stage_spec h1 pe pe_bound pe_keys) as (ex & E & HF).
  rewrite <- h2_eq in E. rewrite <- me_eq, <- E in HF. by exists ex.
Qed.

Lemma merged_store_old (r : nat) : r ∈ pe -> h2 !!! r = h1 !!! r.
Proof.
  intros Hr. destruct merged_store_spec as (ex & -> & _).
  apply lookup_total_app_l. by apply pe_bound.
Qed.

Lemma merged_store_length : (length h1 <= length h2)%nat.
Proof.
  destruct merged_store_spec as (ex & -> & _). rewrite length_app. lia.
Qed.

Lemma survivor_in_pe (r : nat) :
  In r (List.filter (survives h1 pe) pe) -> r ∈ pe.
Proof. intros [H _]%filter_In. by apply list_elem_of_In. Qed.

(** The final store: the flags are those computed on the pre-merge
    objects. *)
Lemma store_flagged (i r : nat) :
  pe !! i = Some r ->
  store (layout schedule) !!! r =
  set_isOverlapping
    (Some (0 <? length (overlappingEvents h1 pe i r))%nat) (h1 !!! r).
Proof.
  intros Hi.
  assert (Hr : r ∈ pe) by (apply list_elem_of_lookup; by exists i).
  assert (Hb : forall r, r ∈ pe -> (r < length h2)%nat).
  { intros r' Hr'. apply pe_bound in Hr'.
    pose proof merged_store_length. lia. }
  rewrite store_eq, (overlap_stage_flagged h2 pe pe_NoDup Hb i r Hi).
  rewrite merged_store_old by done. do 4 f_equal.
  unfold overlappingEvents. apply List.filter_ext_in.
  intros [j o] Hin. case_bool_decide; [done|].
  apply list_elem_of_In, elem_of_lookup_imap in Hin
    as (j' & o' & [= -> ->] & Hj).
  rewrite (merged_store_old r Hr), (merged_store_old o'); [done|].
  apply list_elem_of_lookup. by exists j'.
Qed.

(** A merged event is a new object, which the overlap pass never sees. *)
Lemma store_fresh (m : nat) (e : PositionedEvent) :
  (length h1 <= m)%nat -> h2 !! m = Some e ->
  store (layout schedule) !! m = Some e.
Proof.
  intros Hm He. rewrite store_eq.
  rewrite overlap_stage_other; [done|apply pe_NoDup|].
  intros Hin%pe_bound. lia.
Qed.
End Pipeline.

(** ** The continuation merge (C1, C7) *)



Lemma merged_event_frame (first last : PositionedEvent) :
  value (merged_event first last) = value first /\
  start (merged_event first last) = start first /\
  splitIndex (merged_event first last) = splitIndex first /\
  totalSplits (merged_event first last) = totalSplits first /\
  continuationGroup (merged_event first last) = continuationGroup first /\
  startPosition (merged_event first last) = startPosition first /\
  isOverlapping (merged_event first last) = isOverlapping first.
Proof. done. Qed.



(** ** The overlap annotation (C2, C9, C6) *)


Lemma overlaps_sym (e o : PositionedEvent) : overlaps e o = overlaps o e.
Proof. unfold overlaps. by rewrite orb_comm. Qed.



(** C9 — When two distinct positions of the scanned array hold events [e]
    and [o] such that [e] passes the test against [o], then [o] passes the
    test against [e], and both are flagged. *)
Theorem C9_overlap_symmetric (schedule : DaySchedule) (i j r o : nat) :
  processedEvents (layout schedule) !! i = Some r ->
  processedEvents (layout schedule) !! j = Some o ->
  i <> j ->
  overlaps (created_events schedule !!! r) (created_events schedule !!! o)
  = true ->
  isOverlapping (store (layout schedule) !!! r) = Some true /\
  overlaps (created_events schedule !!! o) (created_events schedule !!! r)
  = true /\
  isOverlapping (store (layout schedule) !!! o) = Some true.
Proof.
  intros Hi Hj Hne Ho.
  assert (Ho' : overlaps (created_events schedule !!! o)
                  (created_events schedule !!! r) = true)
    by by rewrite overlaps_sym.
  rewrite (store_flagged schedule i r Hi), (store_flagged schedule j o Hj).
  cbn [isOverlapping set_isOverlapping].
  split; [|split; [done|]]; f_equal; apply overlap_flag_true.
  - by exists j, o.
  - by exists i, r.
Qed.

(** C6 — The merged array corresponds, in order, to the pre-merge events
    that are not dropped. The output event standing for the first event of a
    group of size at least 2 is an object that is not in the pre-merge
    array, and its flag is never set; every other output event is the
    pre-merge object itself and carries the flag the overlap pass computed
    for it. A schedule is exhibited whose merged event passes the test
    against another output event and still has no flag. *)
Theorem C6_merged_event_unflagged :
  (forall schedule : DaySchedule,
     Forall2
       (fun m r =>
          match role_of (created_events schedule)
                  (processedEvents (layout schedule)) r with
          | Head _ =>
              (m ∉ processedEvents (layout schedule)) /\
              isOverlapping (store (layout schedule) !!! m) = None
          | _ =>
              m = r /\
              exists i, processedEvents (layout schedule) !! i = Some r /\
                isOverlapping (store (layout schedule) !!! m)
                = Some (0 <? length
                          (overlappingEvents (created_events schedule)
                             (processedEvents (layout schedule)) i r))%nat
          end)
       (mergedEvents (layout schedule))
       (List.filter
          (survives (created_events schedule)
                    (processedEvents (layout schedule)))
          (processedEvents (layout schedule))))
  /\ (exists (schedule : DaySchedule) (e o : PositionedEvent),
        data schedule =
          [TimeSlot.mk "09:00" "10:00" (Some "CE 1A 101"%string);
           TimeSlot.mk "10:00" "11:00" (Some "CE 1A 101"%string);
           TimeSlot.mk "09:30" "10:30" (Some "MATH"%string)] /\
        rendered schedule = [e; o] /\
        end_ e = "11:00"%string /\
        overlaps e o = true /\
        isOverlapping e = None /\
        isOverlapping o = Some true).
Proof.
  split.
  - intros schedule.
    destruct (merged_store_spec schedule) as (ex & _ & HF).
    apply Forall2_same_length_lookup_2; [by eapply Forall2_length|].
    intros n m r Hm Hr.
    pose proof (Forall2_lookup_lr _ _ _ _ _ _ HF Hm Hr) as HP.
    assert (Hin : r ∈ processedEvents (layout schedule)).
    { apply survivor_in_pe, list_elem_of_In, list_elem_of_lookup.
      by exists n. }
    cbv beta in HP.
    destruct (role_of _ _ r) as [|lastRef|] eqn:Er.
    + subst m. split; [done|].
      apply list_elem_of_lookup in Hin as [i Hi]. exists i.
      split; [done|]. by rewrite (store_flagged schedule i r Hi).
    + destruct HP as [Hfresh HP]. split.
      * intros H. apply (pe_bound schedule) in H. lia.
      * rewrite (list_lookup_total_correct _ _ _
                   (store_fresh schedule m _ Hfresh HP)).
        rewrite (proj2 (proj2 (proj2 (proj2 (proj2 (proj2
                   (merged_event_frame _ _))))))).
        apply (created_events_fresh schedule), list_elem_of_lookup.
        exists r. by apply pe_lookup_total.
    + subst m. split; [done|].
      apply list_elem_of_lookup in Hin as [i Hi]. exists i.
      split; [done|]. by rewrite (store_flagged schedule i r Hi).
  - eexists {| data := _ |}, _, _. split; [reflexivity|].
    split; [vm_compute; reflexivity|]. by vm_compute.
Qed.

(** ** The split stage (C3) *)

Lemma split_chars_cons (sep : ascii) (l : list ascii) :
  exists first rest, Str.split_chars sep l = first :: rest.
Proof.
  induction l as [|c l (first & rest & IH)]; simpl; [by eexists _, _|].
  destruct (Str.ceqb c sep); [by eexists _, _|].
  rewrite IH. by eexists _, _.
Qed.

Lemma line_runs_split (l cur : list ascii) :
  line_runs cur l =
  List.filter (fun s => negb (bool_decide (s = [])))
    match Str.split_chars "010" l with
    | first :: rest => (rev cur ++ first) :: rest
    | [] => [rev cur]
    end.
Proof.
  assert (Hne : forall s : list ascii,
            negb (bool_decide (rev s = [])) = negb (bool_decide (s = []))).
  { intros [|c s]; [done|]. rewrite !bool_decide_eq_false_2; [done..|].
    simpl. by destruct (rev s). }
  revert cur. induction l as [|c l IH]; intros cur.
  - cbn [line_runs Str.split_chars List.filter]. rewrite app_nil_r, Hne.
    by destruct cur.
  - cbn [line_runs Str.split_chars].
    destruct (Str.ceqb c "010").
    + cbn [List.filter]. rewrite app_nil_r, Hne, (IH []).
      destruct (split_chars_cons "010" l) as (first & rest & ->).
      by destruct cur.
    + rewrite IH. destruct (Str.split_chars "010" l) as [|first rest].
      * done.
      * cbn [rev]. by rewrite <- app_assoc.
Qed.

Lemma truthy_of_chars (l : list ascii) :
  Str.truthy (Str.of_chars l) = negb (bool_decide (l = [])).
Proof. by destruct l. Qed.

(** The lines the source computes are the non-empty lines of the text. *)
Lemma splitEventValue_lines (v : string) :
  splitEventValue v = non_empty_lines v.
Proof.
  unfold splitEventValue, non_empty_lines, Str.split.
  rewrite line_runs_split. cbn [rev app].
  replace (match Str.split_chars "010" (Str.chars v) with
           | first :: rest => first :: rest
           | [] => [[]]
           end) with (Str.split_chars "010" (Str.chars v))
    by by destruct (split_chars_cons "010" (Str.chars v))
         as (first & rest & ->).
  induction (Str.split_chars "010" (Str.chars v)) as [|s L IH]; [done|].
  cbn [map List.filter]. rewrite truthy_of_chars, IH.
  by destruct (negb _).
Qed.

Lemma slot_events_lookup (slot : TimeSlot.t) (k : nat)
    (e : PositionedEvent) :
  slot_events slot !! k = Some e <->
  exists v, slot_lines slot !! k = Some v /\
    e = {| start := TimeSlot.start slot;
           end_ := TimeSlot.end_ slot;
           value := v;
           startPosition :=
             position (convertTimeToNumber (TimeSlot.start slot));
           duration :=
             span_percent (convertTimeToNumber (TimeSlot.start slot))
                          (convertTimeToNumber (TimeSlot.end_ slot));
           isOverlapping := None;
           splitIndex := Some k;
           totalSplits := Some (length (slot_lines slot));
           isContinuation := None;
           continuationGroup := Pattern.continuation_key v |}.
Proof.
  unfold slot_events, slot_lines. rewrite list_lookup_imap.
  rewrite splitEventValue_lines, fmap_Some. naive_solver.
Qed.




(** ** Time normalization (C4) *)

Lemma all_times_read_true : all_times_read = true.
Proof. vm_compute. reflexivity. Qed.

Lemma position_Fin (x : Q) :
  exists p, position (Fin x) = Fin p /\ (p == (x - 7) / 13 * 100)%Q.
Proof.
  eexists. split; [reflexivity|].
  rewrite !Qred_correct. unfold Qminus.
  change (inject_Z 7) with 7%Q. change (inject_Z 13) with 13%Q.
  change (inject_Z 100) with 100%Q. reflexivity.
Qed.

Lemma position_not_NaN (a : number) : a <> NaN -> position a <> NaN.
Proof.
  destruct a as [x| | |]; [|done..].
  destruct (position_Fin x) as (p & -> & _). done.
Qed.




(** ** Malformed time strings (C5) *)

Lemma add_NaN_r (a : number) : (a + NaN)%num = NaN.
Proof. by destruct a. Qed.

Lemma malformed_NaN (t : string) :
  malformed t -> convertTimeToNumber t = NaN.
Proof.
  unfold malformed, convertTimeToNumber, time_parts. intros [-> | ->].
  - done.
  - apply add_NaN_r.
Qed.

Lemma span_percent_NaN (s e : number) :
  s = NaN \/ e = NaN -> span_percent s e = NaN.
Proof.
  unfold span_percent. intros [-> | ->].
  - unfold Num.sub. cbn [Num.neg]. by rewrite add_NaN_r.
  - done.
Qed.

(** Two schedules: one with a slot whose start has no readable hour, and
    the same without that slot. The slot is rendered, with NaN as position
    and duration, so the two outputs differ. *)
Lemma C5_counterexample :
  let bad := TimeSlot.mk "9x:00" "10:00" (Some "MATH 101"%string) in
  let good := TimeSlot.mk "11:00" "12:00" (Some "PHYS 201"%string) in
  malformed (TimeSlot.start bad) /\
  map (fun e => (value e, startPosition e, duration e))
      (rendered {| data := [bad; good] |})
  = [("MATH 101"%string, NaN, NaN);
     ("PHYS 201"%string, Fin (400 # 13), Fin (100 # 13))] /\
  map (fun e => (value e, startPosition e, duration e))
      (rendered {| data := [good] |})
  = [("PHYS 201"%string, Fin (400 # 13), Fin (100 # 13))] /\
  rendered {| data := [bad; good] |} <> rendered {| data := [good] |}.
Proof.
  split; [by left|]. split; [by vm_compute|]. split; [by vm_compute|].
  intros H. apply (f_equal length) in H. vm_compute in H. discriminate.
Qed.

(** C5 — A slot with a non-empty value whose start or end time
    has an hour or minute part that is not a number is not skipped: every
    non-empty line of its value still yields a pre-merge event, with the
    times of the slot, whose [duration] is NaN, and whose [startPosition] is
    NaN when the start time is the malformed one. *)
Theorem C5_malformed_slot_kept (schedule : DaySchedule) (slot : TimeSlot.t)
    (v : string) :
  slot ∈ data schedule ->
  has_value slot = true ->
  malformed (TimeSlot.start slot) \/ malformed (TimeSlot.end_ slot) ->
  v ∈ slot_lines slot ->
  exists r,
    r ∈ processedEvents (layout schedule) /\
    value (created_events schedule !!! r) = v /\
    start (created_events schedule !!! r) = TimeSlot.start slot /\
    end_ (created_events schedule !!! r) = TimeSlot.end_ slot /\
    duration (created_events schedule !!! r) = NaN /\
    (malformed (TimeSlot.start slot) ->
     startPosition (created_events schedule !!! r) = NaN).
Proof.
  intros Hslot Hval Hbad Hv.
  apply list_elem_of_lookup in Hv as [k Hk].
  pose proof (proj2 (slot_events_lookup slot k _)
                (ex_intro _ v (conj Hk eq_refl))) as He.
  match type of He with _ = Some ?x => set (e := x) in * end.
  assert (Hin : e ∈ created_events schedule).
  { apply created_events_elem. exists slot.
    split; [done|]. split; [done|].
    apply list_elem_of_lookup. by exists k. }
  apply list_elem_of_lookup in Hin as [r Hr].
  exists r. rewrite (list_lookup_total_correct _ _ _ Hr). split.
  - rewrite (pe_perm schedule), elem_of_seq.
    apply lookup_lt_Some in Hr. lia.
  - subst e. cbn. repeat (split; [done|]). split.
    + apply span_percent_NaN.
      destruct Hbad as [H|H]; [left|right]; by apply malformed_NaN.
    + intros H. by rewrite (malformed_NaN _ H).
Qed.

(** The slot ["9x:00"]-["10:00"] with value ["MATH 101"]. *)
Lemma C5_malformed_slot_kept_witness :
  exists r,
    r ∈ processedEvents
          (layout {| data := [TimeSlot.mk "9x:00" "10:00"
                                (Some "MATH 101"%string)] |}) /\
    value (created_events
             {| data := [TimeSlot.mk "9x:00" "10:00"
                           (Some "MATH 101"%string)] |} !!! r)
    = "MATH 101"%string /\
    start (created_events
             {| data := [TimeSlot.mk "9x:00" "10:00"
                           (Some "MATH 101"%string)] |} !!! r)
    = "9x:00"%string /\
    end_ (created_events
            {| data := [TimeSlot.mk "9x:00" "10:00"
                          (Some "MATH 101"%string)] |} !!! r)
    = "10:00"%string /\
    duration (created_events
                {| data := [TimeSlot.mk "9x:00" "10:00"
                              (Some "MATH 101"%string)] |} !!! r) = NaN /\
    (malformed "9x:00" ->
     startPosition (created_events
                      {| data := [TimeSlot.mk "9x:00" "10:00"
                                    (Some "MATH 101"%string)] |} !!! r)
     = NaN).
Proof.
  apply (C5_malformed_slot_kept
           {| data := [TimeSlot.mk "9x:00" "10:00"
                         (Some "MATH 101"%string)] |}
           (TimeSlot.mk "9x:00" "10:00" (Some "MATH 101"%string))
           "MATH 101").
  - simpl. apply list_elem_of_here.
  - reflexivity.
  - left. left. reflexivity.
  - vm_compute. apply list_elem_of_here.
Defined.

(** ** Order of the events (C8) *)

Lemma StronglySorted_filter {A : Type} (R : A -> A -> Prop)
    (f : A -> bool) (l : list A) :
  StronglySorted R l -> StronglySorted R (List.filter f l).
Proof.
  induction 1 as [|x l Hs IH Hx]; cbn [List.filter]; [constructor|].
  destruct (f x); [|done]. constructor; [done|].
  rewrite Forall_forall in Hx. apply Forall_forall.
  intros y Hy%list_elem_of_In%filter_In. apply Hx, list_elem_of_In, Hy.
Qed.

Lemma StronglySorted_seq (start len : nat) :
  StronglySorted lt (seq start len).
Proof.
  revert start. induction len as [|len IH]; intros start; [constructor|].
  cbn [seq]. constructor; [apply IH|].
  apply Forall_forall. intros y Hy%elem_of_seq. lia.
Qed.

Lemma ascending_image (h h' : list PositionedEvent) (out srcs : list nat) :
  Forall2 (fun m r => startPosition (h' !!! m) = startPosition (h !!! r))
          out srcs ->
  StronglySorted (in_order h) srcs ->
  ascending (map (fun m => h' !!! m) out).
Proof.
  intros HF. induction HF as [|m r out srcs Hmr HF IH]; intros Hs.
  - constructor.
  - apply StronglySorted_inv in Hs as [Hs Hr]. cbn [map].
    constructor; [by apply IH|].
    rewrite Forall_forall in Hr. apply Forall_forall.
    intros e He. apply list_elem_of_In, in_map_iff in He as (m' & <- & Hm').
    apply list_elem_of_In, list_elem_of_lookup in Hm' as [i Hi].
    destruct (Forall2_lookup_l _ _ _ _ _ HF Hi) as (r' & Hr' & E).
    rewrite Hmr, E.
    apply (Hr r'), list_elem_of_lookup. by exists i.
Qed.

Lemma merged_positions (schedule : DaySchedule) :
  Forall2
    (fun m r =>
       startPosition (merged_store schedule !!! m)
       = startPosition (created_events schedule !!! r))
    (mergedEvents (layout schedule))
    (List.filter
       (survives (created_events schedule)
                 (processedEvents (layout schedule)))
       (processedEvents (layout schedule))).
Proof.
  destruct (merged_store_spec schedule) as (ex & _ & HF).
  apply Forall2_same_length_lookup_2; [by eapply Forall2_length|].
  intros i m r Hm Hr.
  pose proof (Forall2_lookup_lr _ _ _ _ _ _ HF Hm Hr) as HP.
  assert (Hin : r ∈ processedEvents (layout schedule)).
  { apply survivor_in_pe, list_elem_of_In, list_elem_of_lookup.
    by exists i. }
  cbv beta in HP.
  destruct (role_of _ _ r) as [|lastRef|] eqn:Er.
  - subst m. by rewrite merged_store_old.
  - destruct HP as [_ HP]. by rewrite (list_lookup_total_correct _ _ _ HP).
  - subst m. by rewrite merged_store_old.
Qed.

(** A schedule whose second slot has no readable start hour: every
    comparison with its event yields NaN, and the pre-merge array keeps the
    10:00 event before the 09:00 one. *)
Lemma C8_counterexample :
  let schedule :=
    {| data := [TimeSlot.mk "10:00" "11:00" (Some "MATH 101"%string);
                TimeSlot.mk "9x:00" "11:00" (Some "PHYS 201"%string);
                TimeSlot.mk "09:00" "10:00" (Some "CHEM 301"%string)] |} in
  map (fun e => (start e, startPosition e)) (pre_merge_events schedule)
  = [("10:00"%string, Fin (300 # 13));
     ("9x:00"%string, NaN);
     ("09:00"%string, Fin (200 # 13))] /\
  (Fin (200 # 13) <? Fin (300 # 13))%num = true /\
  ~ ascending (pre_merge_events schedule).
Proof.
  split; [by vm_compute|]. split; [done|].
  intros H. vm_compute in H.
  apply StronglySorted_inv in H as [_ H].
  apply Forall_inv_tail, Forall_inv in H. discriminate.
Qed.

(** C8 — When the start time of every slot with a non-empty value
    is read as a number, the pre-merge array is in ascending order of
    [startPosition], events with equal positions being in creation order
    (the order of the slots, then of the lines); the merged array
    corresponds, in order and with the same positions, to the pre-merge
    events that are not dropped, hence is ascending as well. *)
Theorem C8_sorted_by_position (schedule : DaySchedule) :
  (forall slot, slot ∈ data schedule -> has_value slot = true ->
     convertTimeToNumber (TimeSlot.start slot) <> NaN) ->
  let h1 := created_events schedule in
  let pe := processedEvents (layout schedule) in
  StronglySorted (in_order h1) pe /\
  ascending (pre_merge_events schedule) /\
  StronglySorted (in_order h1) (List.filter (survives h1 pe) pe) /\
  Forall2
    (fun m r =>
       startPosition (merged_store schedule !!! m)
       = startPosition (h1 !!! r))
    (mergedEvents (layout schedule)) (List.filter (survives h1 pe) pe) /\
  ascending (map (fun m => merged_store schedule !!! m)
                 (mergedEvents (layout schedule))).
Proof.
  intros Hnum h1 pe.
  assert (Hkey : forall r, (r < length h1)%nat ->
                   startPosition (h1 !!! r) <> NaN).
  { intros r Hr.
    assert (He : h1 !!! r ∈ h1).
    { apply list_elem_of_lookup. exists r.
      by apply list_lookup_lookup_total_lt. }
    apply created_events_elem in He as (slot & Hs & Hv & He).
    apply list_elem_of_lookup in He as [k Hk].
    apply slot_events_lookup in Hk as (v & _ & ->). cbn.
    by apply position_not_NaN, Hnum. }
  assert (Hpe : StronglySorted (in_order h1) pe).
  { unfold pe. rewrite pe_eq. unfold split_stage. cbn [snd].
    apply (Array_sort_sorted (fun r => startPosition (h1 !!! r))).
    - apply Forall_forall. intros r Hr%elem_of_seq. apply Hkey.
      unfold h1. lia.
    - apply StronglySorted_seq. }
  assert (Hsurv : StronglySorted (in_order h1)
                    (List.filter (survives h1 pe) pe))
    by by apply StronglySorted_filter.
  assert (HF : Forall2
    (fun m r =>
       startPosition (merged_store schedule !!! m)
       = startPosition (h1 !!! r))
    (mergedEvents (layout schedule)) (List.filter (survives h1 pe) pe)).
  { apply merged_positions. }
  split; [done|]. split.
  - unfold pre_merge_events. apply (ascending_image h1 h1 pe pe); [|done].
    apply Forall2_same_length_lookup_2; [done|]. congruence.
  - split; [done|]. split; [done|].
    by eapply ascending_image.
Qed.

(** ** Colour lookup (C10) *)

Lemma fold_insert_lookup {V : Type} (l : list (string * V))
    (m0 : gmap string V) (k : string) (v : V) :
  (forall kv, kv ∈ l -> kv.1 = k -> kv.2 = v) ->
  m0 !! k = Some v \/ (exists kv, kv ∈ l /\ kv.1 = k) ->
  fold_left (fun m kv => <[kv.1 := kv.2]> m) l m0 !! k = Some v.
Proof.
  revert m0. induction l as [|[k' v'] l IH]; intros m0 Hall Hsome.
  - destruct Hsome as [H|(kv & H & _)]; [done|by inversion H].
  - cbn [fold_left fst snd]. apply IH.
    + intros kv Hkv. apply Hall. by right.
    + destruct (decide (k' = k)) as [->|Hne].
      * left. rewrite lookup_insert_eq. f_equal.
        by apply (Hall (k, v')); [left|].
      * destruct Hsome as [H|(kv & H & Hk)].
        -- left. by rewrite lookup_insert_ne.
        -- apply elem_of_cons in H as [->|H]; [done|].
           right. by exists kv.
Qed.

(** C10 — For a course code of the table all of whose indices leave the
    remainder 0 modulo [COLOR_SCHEMES.length], the index computed at line 42
    is -1, the table maps the code to [undefined], and [getCourseColor]
    returns [DEFAULT_COLOR] for every value in which the pattern finds that
    code. *)
Theorem C10_color_index_out_of_range (COURSE_CODES : list string)
    (COLOR_SCHEMES : list ColorScheme) (DEFAULT_COLOR : ColorScheme)
    (code : string) :
  code ∈ COURSE_CODES ->
  (forall index, COURSE_CODES !! index = Some code ->
     js_rem index (length COLOR_SCHEMES) = Some 0) ->
  (forall index, COURSE_CODES !! index = Some code ->
     scheme_index index (length COLOR_SCHEMES) = Some (-1) /\
     array_get COLOR_SCHEMES (scheme_index index (length COLOR_SCHEMES))
     = None) /\
  courseColorMap COURSE_CODES COLOR_SCHEMES !! code = Some None /\
  (forall value, Pattern.course_code value = Some code ->
     getCourseColor COURSE_CODES COLOR_SCHEMES DEFAULT_COLOR value
     = DEFAULT_COLOR).
Proof.
  intros Hin Hrem.
  assert (Hidx : forall index, COURSE_CODES !! index = Some code ->
     scheme_index index (length COLOR_SCHEMES) = Some (-1) /\
     array_get COLOR_SCHEMES (scheme_index index (length COLOR_SCHEMES))
     = None).
  { intros index Hi. unfold scheme_index. by rewrite (Hrem index Hi). }
  assert (Hmap : courseColorMap COURSE_CODES COLOR_SCHEMES !! code
                 = Some None).
  { unfold courseColorMap. apply fold_insert_lookup.
    - intros kv Hkv Hk. unfold color_entries in Hkv.
      apply elem_of_lookup_imap in Hkv as (index & c & -> & Hi).
      cbn [fst snd] in *. subst c. by apply Hidx.
    - right. apply list_elem_of_lookup in Hin as [index Hi].
      eexists. split; [|shelve].
      unfold color_entries. by apply elem_of_lookup_imap_2.
      Unshelve. done. }
  split; [done|]. split; [done|].
  intros value Hv. unfold getCourseColor. by rewrite Hv, Hmap.
Qed.

(** Two schemes and three codes: ["101"] has index 0 and ["301"] index 2. *)
Lemma C10_color_index_out_of_range_witness :
  let codes := ["101"; "201"; "301"]%string in
  let schemes := [Build_ColorScheme "bg-red" "border-red" "text-red";
                  Build_ColorScheme "bg-blue" "border-blue" "text-blue"] in
  let default := Build_ColorScheme "bg-gray" "border-gray" "text-gray" in
  (forall index, codes !! index = Some "301"%string ->
     scheme_index index (length schemes) = Some (-1) /\
     array_get schemes (scheme_index index (length schemes)) = None) /\
  courseColorMap codes schemes !! "301"%string = Some None /\
  (forall value, Pattern.course_code value = Some "301"%string ->
     getCourseColor codes schemes default value = default).
Proof.
  apply (C10_color_index_out_of_range
           ["101"; "201"; "301"]%string
           [Build_ColorScheme "bg-red" "border-red" "text-red";
            Build_ColorScheme "bg-blue" "border-blue" "text-blue"]
           (Build_ColorScheme "bg-gray" "border-gray" "text-gray")
           "301").
  - do 2 apply list_elem_of_further. apply list_elem_of_here.
  - intros [|[|[|index]]] H; try discriminate H; reflexivity.
Defined.

(** ** The scenarios, computed *)

Example scenario1_rendered :
  rendered scenario1 =
  [{| start := "09:00"; end_ := "10:00"; value := "CE 1A 101";
      startPosition := Fin (200 # 13); duration := Fin (100 # 13);
      isOverlapping := Some false;
      splitIndex := Some 0%nat; totalSplits := Some 1%nat;
      isContinuation := None;
      continuationGroup := Some "CE 1A 101"%string |}].
Proof. vm_compute. reflexivity. Qed.

Example scenario2_rendered :
  map (fun e => (value e, splitIndex e, totalSplits e,
                 startPosition e, duration e))
      (rendered scenario2)
  = [("CE 1A 101"%string, Some 0%nat, Some 2%nat,
      Fin (200 # 13), Fin (100 # 13));
     ("MATH 2B 210"%string, Some 1%nat, Some 2%nat,
      Fin (200 # 13), Fin (100 # 13))].
Proof. vm_compute. reflexivity. Qed.

Example scenario3_rendered :
  map (fun e => (start e, end_ e, value e, duration e)) (rendered scenario3)
  = [("09:00"%string, "11:00"%string, "CE 1A 101"%string, Fin (200 # 13))].
Proof. vm_compute. reflexivity. Qed.

Example scenario4_rendered :
  map (fun e => (value e, isOverlapping e)) (rendered scenario4)
  = [("A"%string, Some true); ("B"%string, Some true)].
Proof. vm_compute. reflexivity. Qed.

Example scenario5_rendered : rendered scenario5 = [].
Proof. reflexivity. Qed.

(** ** Instances of the theorems *)


(** Scenario 4, the events ["A"] and ["B"]. *)
Lemma C9_overlap_symmetric_witness :
  overlaps (created_events scenario4 !!! 0%nat)
           (created_events scenario4 !!! 1%nat) = true /\
  isOverlapping (store (layout scenario4) !!! 0%nat) = Some true /\
  overlaps (created_events scenario4 !!! 1%nat)
           (created_events scenario4 !!! 0%nat) = true /\
  isOverlapping (store (layout scenario4) !!! 1%nat) = Some true.
Proof.
  split; [vm_compute; reflexivity|].
  apply (C9_overlap_symmetric scenario4 0 1 0 1).
  - vm_compute. reflexivity.
  - vm_compute. reflexivity.
  - lia.
  - vm_compute. reflexivity.
Defined.

(** Scenario 3: both start times are read as numbers. *)
Lemma C8_sorted_by_position_witness :
  let h1 := created_events scenario3 in
  let pe := processedEvents (layout scenario3) in
  StronglySorted (in_order h1) pe /\
  ascending (pre_merge_events scenario3) /\
  StronglySorted (in_order h1) (List.filter (survives h1 pe) pe) /\
  Forall2
    (fun m r =>
       startPosition (merged_store scenario3 !!! m)
       = startPosition (h1 !!! r))
    (mergedEvents (layout scenario3)) (List.filter (survives h1 pe) pe) /\
  ascending (map (fun m => merged_store scenario3 !!! m)
                 (mergedEvents (layout scenario3))).
Proof.
  apply (C8_sorted_by_position scenario3).
  intros s Hs _.
  apply elem_of_cons in Hs as [->|Hs]; [vm_compute; discriminate|].
  apply elem_of_cons in Hs as [->|Hs]; [vm_compute; discriminate|].
  inversion Hs.
Defined.

(** * Further properties of the component *)

(** ** Strings *)

Lemma chars_append (a b : string) :
  Str.chars (a +:+ b) = Str.chars a ++ Str.chars b.
Proof.
  unfold Str.chars. induction a as [|c a IH]; [done|].
  change (String c a +:+ b) with (String c (a +:+ b)).
  cbn [list_ascii_of_string app]. by rewrite IH.
Qed.

Lemma of_chars_chars (s : string) : Str.of_chars (Str.chars s) = s.
Proof. apply string_of_list_ascii_of_string. Qed.

Lemma chars_of_chars (l : list ascii) : Str.chars (Str.of_chars l) = l.
Proof. apply list_ascii_of_string_of_list_ascii. Qed.

Lemma ceqb_eq (a b : ascii) : Str.ceqb a b = true <-> a = b.
Proof. apply Ascii.eqb_eq. Qed.

Lemma ceqb_neq (a b : ascii) : Str.ceqb a b = false <-> a <> b.
Proof. apply Ascii.eqb_neq. Qed.

Lemma split_chars_no_sep (sep : ascii) (l : list ascii) :
  sep ∉ l -> Str.split_chars sep l = [l].
Proof.
  induction l as [|c l IH]; [done|]. intros Hn.
  apply not_elem_of_cons in Hn as [Hc Hl]. cbn [Str.split_chars].
  rewrite (proj2 (ceqb_neq c sep)) by congruence. by rewrite IH.
Qed.

Lemma split_chars_sep (sep : ascii) (a b : list ascii) :
  sep ∉ a ->
  Str.split_chars sep (a ++ sep :: b) = a :: Str.split_chars sep b.
Proof.
  induction a as [|c a IH]; intros Hn.
  - cbn [app Str.split_chars]. by rewrite (proj2 (ceqb_eq sep sep)).
  - apply not_elem_of_cons in Hn as [Hc Ha]. cbn [app Str.split_chars].
    rewrite (proj2 (ceqb_neq c sep)) by congruence. by rewrite IH.
Qed.

(** ** Time strings that are not of the expected shape *)

(** X1 — A time string without any colon has no minute part: the minutes
    are [undefined] and the result is NaN, whatever the hour part is. *)
Theorem X1_time_without_colon (t : string) :
  ":"%char ∉ Str.chars t -> convertTimeToNumber t = NaN.
Proof.
  intros Hn. unfold convertTimeToNumber, Str.split.
  rewrite split_chars_no_sep by done. cbn. apply add_NaN_r.
Qed.

Lemma X1_time_without_colon_witness : convertTimeToNumber "0930" = NaN.
Proof.
  apply (X1_time_without_colon "0930"). vm_compute.
  intros H. repeat (apply elem_of_cons in H as [H|H]; [discriminate H|]).
  inversion H.
Defined.

(** X2 — Only the first two colon-separated parts are read: the result is
    [Number(h) + Number(m) / 60], and anything after a second colon
    (seconds, say) is ignored. *)
Theorem X2_time_reads_two_parts (h m tail : string) :
  ":"%char ∉ Str.chars h -> ":"%char ∉ Str.chars m ->
  convertTimeToNumber (h +:+ ":" +:+ m)
  = (Number h + Number m / Num.of_Z 60)%num /\
  convertTimeToNumber (h +:+ ":" +:+ m +:+ ":" +:+ tail)
  = convertTimeToNumber (h +:+ ":" +:+ m).
Proof.
  intros Hh Hm.
  assert (H2 : convertTimeToNumber (h +:+ ":" +:+ m)
               = (Number h + Number m / Num.of_Z 60)%num).
  { unfold convertTimeToNumber, Str.split.
    rewrite !chars_append. change (Str.chars ":") with [":"%char].
    cbn [app]. rewrite split_chars_sep, split_chars_no_sep by done.
    cbn [map lookup list_lookup ToNumber default from_option id].
    by rewrite !of_chars_chars. }
  split; [done|]. rewrite H2.
  unfold convertTimeToNumber, Str.split.
  rewrite !chars_append. change (Str.chars ":") with [":"%char].
  cbn [app]. rewrite !split_chars_sep by done.
  destruct (split_chars_cons ":" (Str.chars tail)) as (x & rest & ->).
  cbn [map lookup list_lookup ToNumber default from_option id].
  by rewrite !of_chars_chars.
Qed.

Lemma X2_time_reads_two_parts_witness :
  convertTimeToNumber "09:30"
  = (Number "09" + Number "30" / Num.of_Z 60)%num /\
  convertTimeToNumber "09:30:45" = convertTimeToNumber "09:30".
Proof.
  apply (X2_time_reads_two_parts "09" "30" "45"); vm_compute;
    intros H; repeat (apply elem_of_cons in H as [H|H]; [discriminate H|]);
    inversion H.
Defined.

(** ** The position mapping, the time marker and the hour labels *)

Lemma Fin_Qred_eq (p q : Q) : (p == q)%Q -> Fin (Qred p) = Fin (Qred q).
Proof. intros H. f_equal. by apply Qred_complete. Qed.

Lemma position_proper (p q : Q) :
  (p == q)%Q -> position (Fin p) = position (Fin q).
Proof.
  intros H. unfold position. cbn. apply Fin_Qred_eq.
  by rewrite !Qred_correct, H.
Qed.

Lemma valid_time_reads (t : string) (H M : nat) :
  is_time_string t H M ->
  exists q, convertTimeToNumber t = Fin q /\ (q == hour_value H M)%Q.
Proof.
  intros (HH & HM & Ht).
  pose proof all_times_read_true as Hall. unfold all_times_read in Hall.
  rewrite forallb_forall in Hall.
  specialize (Hall H (proj2 (in_seq _ _ _) (conj (Nat.le_0_l _) HH))).
  rewrite forallb_forall in Hall.
  specialize (Hall M (proj2 (in_seq _ _ _) (conj (Nat.le_0_l _) HM))).
  apply andb_prop in Hall as [H1 H2].
  assert (Hr : reads_as t H M = true).
  { destruct Ht as [->|[H10 ->]]; [done|].
    apply Nat.ltb_lt in H10. by rewrite H10 in H2. }
  unfold reads_as in Hr.
  destruct (convertTimeToNumber t) as [q| | |]; try done.
  exists q. split; [done|]. by apply Qeq_bool_iff.
Qed.

(** X3 — Nothing clamps a position: the position of an hour lies between 0
    and 100 exactly when the hour lies between 7 and 20; an earlier hour
    gets a negative percentage and a later one more than 100. *)
Theorem X3_position_range (h : Q) :
  ((Num.of_Z 0 <=? position (Fin h))%num
   && (position (Fin h) <=? Num.of_Z 100)%num = true
   <-> (7 <= h /\ h <= 20)%Q) /\
  ((position (Fin h) <? Num.of_Z 0)%num = true <-> (h < 7)%Q) /\
  ((Num.of_Z 100 <? position (Fin h))%num = true <-> (20 < h)%Q).
Proof.
  destruct (position_Fin h) as (p & -> & Hp).
  cbn [Num.leb Num.ltb Num.of_Z].
  rewrite andb_true_iff, !Qle_bool_iff, !NumFacts.Qlt_bool_iff, Hp.
  change (inject_Z 0) with 0%Q. change (inject_Z 100) with 100%Q.
  assert (E : ((h - 7) / 13 * 100 == (h - 7) * (100 # 13))%Q)
    by field.
  rewrite !E. repeat split; intros; try lra.
Qed.

(** X4 — The time marker is where an event starting now would start: for
    the hours and minutes of a valid time string, [currentTimePosition] is
    the position of what [convertTimeToNumber] reads in that string. *)
Theorem X4_time_marker_aligned (t : string) (H M : nat) :
  is_time_string t H M ->
  currentTimePosition H M = position (convertTimeToNumber t).
Proof.
  intros Ht. destruct (valid_time_reads t H M Ht) as (q & -> & Hq).
  unfold currentTimePosition.
  change (position (Fin (Qred (inject_Z (Z.of_nat H)
            + Qred (inject_Z (Z.of_nat M) / inject_Z 60))))
          = position (Fin q)).
  apply position_proper. rewrite !Qred_correct, Hq. reflexivity.
Qed.

Lemma X4_time_marker_aligned_witness :
  currentTimePosition 9 20 = position (convertTimeToNumber "09:20").
Proof.
  apply (X4_time_marker_aligned "09:20" 9 20).
  split; [lia|]. split; [lia|]. left. reflexivity.
Defined.

Lemma label_top_position (index : nat) :
  label_top index = position (Num.of_Z (Z.of_nat index + 7)).
Proof.
  unfold label_top, position.
  change (Z.of_nat (length timeSlots) - 1)%Z with 13%Z.
  unfold Num.sub, Num.of_Z. cbn [Num.neg Num.add Num.div Num.mul].
  change (Qeq_bool (inject_Z 13) 0) with false. cbv iota.
  apply Fin_Qred_eq.
  rewrite !Qred_correct. rewrite inject_Z_plus.
  change (inject_Z 7) with 7%Q. field.
Qed.

(** X5 — The grid line of the label of index [i] is at the position of the
    hour [i + 7]: an event starting on that hour starts on the line. *)
Theorem X5_grid_line_aligned (i : nat) (t : string) :
  (i < 14)%nat -> is_time_string t (i + 7) 0 ->
  label_top i = position (convertTimeToNumber t).
Proof.
  intros Hi Ht. destruct (valid_time_reads t _ _ Ht) as (q & -> & Hq).
  rewrite label_top_position. apply position_proper.
  rewrite Hq. unfold hour_value.
  rewrite Nat2Z.inj_add. change (Z.of_nat 7) with 7%Z.
  change (inject_Z (Z.of_nat 0)) with 0%Q. rewrite inject_Z_plus.
  change (inject_Z 7) with 7%Q. field.
Qed.

Lemma X5_grid_line_aligned_witness :
  label_top 2 = position (convertTimeToNumber "09:00").
Proof.
  apply (X5_grid_line_aligned 2 "09:00"); [lia|].
  split; [lia|]. split; [lia|]. left. reflexivity.
Defined.

Lemma timeSlot_label_clock (i : nat) :
  (i <= 16)%nat -> timeSlot_label i = twelve_hour_label (i + 7).
Proof.
  intros Hi. do 17 (destruct i as [|i]; [by vm_compute|]). lia.
Qed.

(** X6 — [timeSlots] holds 14 labels, no two of them equal (each is used as
    a key of the rendered list), and the label of index [i] is the name of
    the hour [i + 7] on the 12-hour clock. *)
Theorem X6_hour_labels :
  length timeSlots = 14%nat /\
  NoDup timeSlots /\
  (forall i label, timeSlots !! i = Some label ->
     label = twelve_hour_label (i + 7)).
Proof.
  split; [done|]. split.
  - apply (bool_decide_unpack _). by vm_compute.
  - intros i label Hi. unfold timeSlots in Hi.
    rewrite list_lookup_fmap in Hi.
    destruct (seq 0 14 !! i) as [j|] eqn:Ej; [|done].
    apply lookup_seq in Ej as [-> Hlt]. injection Hi as <-.
    apply timeSlot_label_clock. lia.
Qed.

(** ** Lines of a value *)

Lemma split_chars_elem_no_sep (sep : ascii) (l seg : list ascii) :
  seg ∈ Str.split_chars sep l -> sep ∉ seg.
Proof.
  revert seg. induction l as [|c l IH]; intros seg Hseg.
  - apply list_elem_of_singleton in Hseg as ->. apply not_elem_of_nil.
  - cbn [Str.split_chars] in Hseg.
    destruct (Str.ceqb c sep) eqn:Ec.
    + apply elem_of_cons in Hseg as [->|Hseg]; [apply not_elem_of_nil|].
      by apply IH.
    + destruct (split_chars_cons sep l) as (first & rest & E).
      rewrite E in Hseg, IH.
      apply elem_of_cons in Hseg as [->|Hseg].
      * apply not_elem_of_cons. split.
        -- apply ceqb_neq in Ec. congruence.
        -- apply IH. by left.
      * apply IH. by right.
Qed.

Lemma split_chars_join (sep : ascii) (a b : list ascii) :
  Str.split_chars sep (a ++ sep :: b)
  = Str.split_chars sep a ++ Str.split_chars sep b.
Proof.
  induction a as [|c a IH]; cbn [app Str.split_chars].
  - by rewrite (proj2 (ceqb_eq sep sep)).
  - destruct (Str.ceqb c sep); [by rewrite IH|].
    rewrite IH. by destruct (split_chars_cons sep a) as (x & rest & ->).
Qed.

Lemma splitEventValue_elem (v line : string) :
  line ∈ splitEventValue v <->
  Str.truthy line = true /\
  exists seg, seg ∈ Str.split_chars "010" (Str.chars v) /\
              line = Str.of_chars seg.
Proof.
  unfold splitEventValue, Str.split.
  rewrite list_elem_of_In, filter_In, in_map_iff. split.
  - intros [(seg & <- & Hseg) Ht]. split; [done|].
    exists seg. by rewrite list_elem_of_In.
  - intros (Ht & seg & Hseg & ->). split; [|done].
    exists seg. by rewrite <- list_elem_of_In.
Qed.

Lemma splitEventValue_nil (v : string) :
  splitEventValue v = [] <->
  Forall (fun c => c = "010"%char) (Str.chars v).
Proof.
  unfold splitEventValue, Str.split.
  induction (Str.chars v) as [|c l IH]; [done|].
  cbn [Str.split_chars].
  destruct (Str.ceqb c "010") eqn:Ec.
  - apply ceqb_eq in Ec as ->. cbn [map List.filter Str.of_chars
      string_of_list_ascii Str.truthy]. rewrite IH, Forall_cons. tauto.
  - apply ceqb_neq in Ec.
    destruct (split_chars_cons "010" l) as (first & rest & ->).
    cbn [map List.filter Str.of_chars string_of_list_ascii Str.truthy].
    split; [done|]. intros H. apply Forall_cons in H as [H _]. done.
Qed.

(** X7 — A line returned by [splitEventValue] is never empty and never
    contains a line feed; no line at all is returned exactly when the value
    consists of line feeds only (the empty value included). *)
Theorem X7_lines_are_clean (v : string) :
  (forall line, line ∈ splitEventValue v ->
     line <> EmptyString /\ "010"%char ∉ Str.chars line) /\
  (splitEventValue v = [] <->
   Forall (fun c => c = "010"%char) (Str.chars v)).
Proof.
  split; [|apply splitEventValue_nil].
  intros line (Ht & seg & Hseg & ->)%splitEventValue_elem. split.
  - intros E. by rewrite E in Ht.
  - rewrite chars_of_chars. by eapply split_chars_elem_no_sep.
Qed.

(** X8 — Joining two values with a line feed concatenates their lines, and
    a non-empty value without line feed is its own single line. *)
Theorem X8_lines_of_joined_values :
  (forall a b : string,
     splitEventValue (a +:+ String "010" b)
     = splitEventValue a ++ splitEventValue b) /\
  (forall v : string,
     v <> EmptyString -> "010"%char ∉ Str.chars v ->
     splitEventValue v = [v]).
Proof.
  split.
  - intros a b. unfold splitEventValue, Str.split.
    rewrite chars_append.
    change (Str.chars (String "010" b)) with ("010"%char :: Str.chars b).
    by rewrite split_chars_join, map_app, List.filter_app.
  - intros v Hne Hlf. unfold splitEventValue, Str.split.
    rewrite split_chars_no_sep by done. cbn [map List.filter].
    rewrite of_chars_chars. by destruct v.
Qed.

(** ** What every rendered event satisfies *)

Lemma created_event_shape (schedule : DaySchedule) (r : nat) :
  (r < length (created_events schedule))%nat ->
  exists slot k v,
    slot ∈ data schedule /\ has_value slot = true /\
    slot_lines slot !! k = Some v /\
    slot_events slot !! k = Some (created_events schedule !!! r) /\
    created_events schedule !!! r =
    {| start := TimeSlot.start slot;
       end_ := TimeSlot.end_ slot;
       value := v;
       startPosition :=
         position (convertTimeToNumber (TimeSlot.start slot));
       duration :=
         span_percent (convertTimeToNumber (TimeSlot.start slot))
                      (convertTimeToNumber (TimeSlot.end_ slot));
       isOverlapping := None;
       splitIndex := Some k;
       totalSplits := Some (length (slot_lines slot));
       isContinuation := None;
       continuationGroup := Pattern.continuation_key v |}.
Proof.
  intros Hr.
  assert (He : created_events schedule !!! r ∈ created_events schedule).
  { apply list_elem_of_lookup. exists r.
    by apply list_lookup_lookup_total_lt. }
  apply created_events_elem in He as (slot & Hs & Hv & He).
  apply list_elem_of_lookup in He as [k Hk].
  pose proof Hk as Hk'.
  apply slot_events_lookup in Hk as (v & Hl & E).
  by exists slot, k, v.
Qed.

(** A rendered event is a pre-merge event with its flag, or the merged
    event of the first and last members of a group. *)
Lemma rendered_elem (schedule : DaySchedule) (e : PositionedEvent) :
  e ∈ rendered schedule ->
  (exists i r,
     processedEvents (layout schedule) !! i = Some r /\
     role_of (created_events schedule)
       (processedEvents (layout schedule)) r = Pass /\
     e = set_isOverlapping
           (Some (0 <? length
                    (overlappingEvents (created_events schedule)
                       (processedEvents (layout schedule)) i r))%nat)
           (created_events schedule !!! r)) \/
  (exists r lastRef,
     r ∈ processedEvents (layout schedule) /\
     lastRef ∈ processedEvents (layout schedule) /\
     role_of (created_events schedule)
       (processedEvents (layout schedule)) r = Head lastRef /\
     e = merged_event (created_events schedule !!! r)
                      (created_events schedule !!! lastRef)).
Proof.
  unfold rendered. intros He.
  apply list_elem_of_In, in_map_iff in He as (m & <- & Hm).
  apply list_elem_of_In, list_elem_of_lookup in Hm as [n Hn].
  destruct (merged_store_spec schedule) as (ex & _ & HF).
  destruct (Forall2_lookup_l _ _ _ _ _ HF Hn) as (r & Hr & HP).
  cbv beta in HP.
  assert (Hin : r ∈ processedEvents (layout schedule)).
  { apply survivor_in_pe, list_elem_of_In, list_elem_of_lookup.
    by exists n. }
  assert (Hs : survives (created_events schedule)
                 (processedEvents (layout schedule)) r = true).
  { assert (H : In r (List.filter
                (survives (created_events schedule)
                   (processedEvents (layout schedule)))
                (processedEvents (layout schedule))))
      by (apply list_elem_of_In, list_elem_of_lookup; by exists n).
    by apply filter_In in H as [_ H]. }
  unfold survives in Hs.
  destruct (role_of _ _ r) as [|lastRef|] eqn:Er; [| |done].
  - subst m. left. apply list_elem_of_lookup in Hin as [i Hi].
    exists i, r. split; [done|]. split; [done|].
    by apply store_flagged.
  - destruct HP as [Hfresh HP]. right. exists r, lastRef.
    split; [done|].
    split; [exact (role_Head_last _ _ (pe_bound schedule)
                     (pe_keys schedule) r lastRef Er)|].
    split; [done|].
    by rewrite (list_lookup_total_correct _ _ _
                  (store_fresh schedule m _ Hfresh HP)).
Qed.




(** X10 — Every rendered event carries a [splitIndex] and a [totalSplits],
    and the index is below the total: the total is at least 1, so the
    divisions by [totalSplits] and the non-null assertions of the rendering
    are safe. *)
Theorem X10_split_fields_defined (schedule : DaySchedule)
    (e : PositionedEvent) :
  e ∈ rendered schedule ->
  exists k n, splitIndex e = Some k /\ totalSplits e = Some n /\
              (k < n)%nat.
Proof.
  intros He.
  assert (Hc : forall r, (r < length (created_events schedule))%nat ->
    exists k n, splitIndex (created_events schedule !!! r) = Some k /\
                totalSplits (created_events schedule !!! r) = Some n /\
                (k < n)%nat).
  { intros r Hr.
    destruct (created_event_shape schedule r Hr)
      as (slot & k & v & _ & _ & Hl & _ & ->).
    exists k, (length (slot_lines slot)). split; [done|]. split; [done|].
    by eapply lookup_lt_Some. }
  apply rendered_elem in He
    as [(i & r & Hi & _ & ->)|(r & lastRef & Hr & _ & _ & ->)].
  - apply Hc, pe_bound, list_elem_of_lookup. by exists i.
  - apply Hc, pe_bound, Hr.
Qed.

Lemma X10_split_fields_defined_witness :
  exists k n,
    splitIndex (merged_event (created_events scenario3 !!! 0%nat)
                             (created_events scenario3 !!! 1%nat)) = Some k /\
    totalSplits (merged_event (created_events scenario3 !!! 0%nat)
                              (created_events scenario3 !!! 1%nat)) = Some n /\
    (k < n)%nat.
Proof.
  apply (X10_split_fields_defined scenario3).
  vm_compute. apply list_elem_of_here.
Defined.

(** ** The overlap flags, read on the times *)










Lemma overlaps_NaN (e o : PositionedEvent) :
  startPosition e = NaN \/ startPosition o = NaN -> overlaps e o = true.
Proof.
  unfold overlaps, Num.geb. intros [H|H]; rewrite H.
  - cbn [Num.add]. destruct (startPosition o), (_ + _)%num; done.
  - destruct (_ + _)%num, (startPosition e); done.
Qed.

(** X13 — One event without position taints the whole day: when a pre-merge
    event has NaN as [startPosition] (its start time was not read as a
    number) and the array holds at least two events, every pre-merge event
    is flagged as overlapping. *)
Theorem X13_NaN_flags_every_event (schedule : DaySchedule)
    (i0 r0 i r : nat) :
  processedEvents (layout schedule) !! i0 = Some r0 ->
  startPosition (created_events schedule !!! r0) = NaN ->
  (2 <= length (processedEvents (layout schedule)))%nat ->
  processedEvents (layout schedule) !! i = Some r ->
  isOverlapping (store (layout schedule) !!! r) = Some true.
Proof.
  intros H0 Hnan Hlen Hi.
  rewrite (store_flagged schedule i r Hi). cbn. f_equal.
  apply overlap_flag_true.
  destruct (decide (i = i0)) as [->|Hne].
  - assert (r = r0) as -> by congruence.
    set (j := if (i0 =? 0)%nat then 1%nat else 0%nat).
    assert (Hj : (j < length (processedEvents (layout schedule)))%nat)
      by (unfold j; destruct (i0 =? 0)%nat; lia).
    destruct (lookup_lt_is_Some_2 _ _ Hj) as [o Ho].
    exists j, o. split; [done|]. split.
    + unfold j. destruct (i0 =? 0)%nat eqn:E0;
        [apply Nat.eqb_eq in E0|apply Nat.eqb_neq in E0]; lia.
    + apply overlaps_NaN. by left.
  - exists i0, r0. split; [done|]. split; [done|].
    apply overlaps_NaN. by right.
Qed.

Lemma X13_NaN_flags_every_event_witness :
  let schedule :=
    {| data := [slot "9x:00" "10:00" "MATH 101";
                slot "14:00" "15:00" "PHYS 201"] |} in
  isOverlapping (store (layout schedule) !!! 1%nat) = Some true.
Proof.
  apply (X13_NaN_flags_every_event
           {| data := [slot "9x:00" "10:00" "MATH 101";
                       slot "14:00" "15:00" "PHYS 201"] |} 0 0 1 1);
    vm_compute; first [reflexivity | lia].
Defined.

(** ** The merge when there is nothing to merge, and run twice *)

Lemma role_of_small_groups (h : list PositionedEvent) (events : list nat)
    (r : nat) :
  (forall k, (length (group_members h events k) <= 1)%nat) ->
  role_of h events r = Pass.
Proof.
  intros Hsmall. unfold role_of.
  destruct (continuationGroup (h !!! r)) as [k|]; [|done].
  by rewrite (proj2 (Nat.leb_le _ _) (Hsmall k)).
Qed.

Lemma merge_fold_all_pass (h : list PositionedEvent) (events : list nat) :
  (forall r, r ∈ events -> (r < length h)%nat) ->
  (forall r k, r ∈ events -> continuationGroup (h !!! r) = Some k ->
     Str.truthy k = true) ->
  (forall r, r ∈ events -> role_of h events r = Pass) ->
  forall (l acc : list nat),
    (forall r, r ∈ l -> r ∈ events) ->
    fold_left (merge_step (build_groups h events)) l (h ++ [], acc)
    = (h ++ [], acc ++ l).
Proof.
  intros Hb Hk Hpass l. induction l as [|r l IH]; intros acc Hl.
  - by rewrite (app_nil_r acc).
  - cbn [fold_left].
    rewrite (merge_step_role h events Hb Hk [] acc r)
      by (apply Hl; by left).
    rewrite Hpass by (apply Hl; by left).
    rewrite IH by (intros; apply Hl; by right).
    by rewrite <- app_assoc.
Qed.

Lemma merge_stage_all_pass (h : list PositionedEvent) (events : list nat) :
  (forall r, r ∈ events -> (r < length h)%nat) ->
  (forall r k, r ∈ events -> continuationGroup (h !!! r) = Some k ->
     Str.truthy k = true) ->
  (forall r, r ∈ events -> role_of h events r = Pass) ->
  merge_stage h events = (h, events).
Proof.
  intros Hb Hk Hpass.
  pose proof (merge_fold_all_pass h events Hb Hk Hpass events []
                (fun _ H => H)) as E.
  rewrite app_nil_r in E. exact E.
Qed.

(** X14 — When no two pre-merge events carry the same continuation key, the
    merge allocates nothing and returns the pre-merge array itself; as soon
    as some key is carried by two events, the merged array differs from the
    pre-merge array. *)
Theorem X14_merge_without_groups (schedule : DaySchedule) :
  (forall k,
     (length (group_members (created_events schedule)
                (processedEvents (layout schedule)) k) <= 1)%nat)
  <-> mergedEvents (layout schedule) = processedEvents (layout schedule).
Proof.
  split.
  - intros Hsmall. rewrite me_eq.
    rewrite (merge_stage_all_pass _ _ (pe_bound schedule)
               (pe_keys schedule)); [done|].
    intros r _. by apply role_of_small_groups.
  - intros Heq k.
    destruct (decide (length (group_members (created_events schedule)
                (processedEvents (layout schedule)) k) <= 1)%nat)
      as [|Hbig]; [done|]. exfalso.
    destruct (group_members (created_events schedule)
                (processedEvents (layout schedule)) k)
      as [|first g] eqn:Eg; [simpl in Hbig; lia|].
    assert (Hfirst : first ∈ group_members (created_events schedule)
                       (processedEvents (layout schedule)) k)
      by (rewrite Eg; by left).
    apply group_members_elem in Hfirst as [Hin Hkey].
    assert (Hrole : exists lastRef,
              role_of (created_events schedule)
                (processedEvents (layout schedule)) first = Head lastRef).
    { unfold role_of. rewrite Hkey, Eg.
      rewrite (proj2 (Nat.leb_gt _ _)) by lia.
      cbn [head]. destruct (last (first :: g)) as [lastRef|] eqn:El.
      - exists lastRef. by rewrite bool_decide_eq_true_2.
      - by apply last_None in El. }
    destruct Hrole as [lastRef Hrole].
    assert (Hs : In first (List.filter
              (survives (created_events schedule)
                 (processedEvents (layout schedule)))
              (processedEvents (layout schedule)))).
    { apply filter_In. split; [by apply list_elem_of_In|].
      unfold survives. by rewrite Hrole. }
    apply list_elem_of_In, list_elem_of_lookup in Hs as [n Hn].
    destruct (merged_store_spec schedule) as (ex & _ & HF).
    destruct (Forall2_lookup_r _ _ _ _ _ HF Hn) as (m & Hm & HP).
    cbv beta in HP. rewrite Hrole in HP. destruct HP as [Hfresh _].
    rewrite Heq in Hm.
    assert (Hb : (m < length (created_events schedule))%nat).
    { apply pe_bound, list_elem_of_lookup. by exists n. }
    lia.
Qed.

Lemma Forall2_filter_length {A B : Type} (R : A -> B -> Prop)
    (f : A -> bool) (g : B -> bool) (l1 : list A) (l2 : list B) :
  Forall2 R l1 l2 -> (forall x y, R x y -> f x = g y) ->
  length (List.filter f l1) = length (List.filter g l2).
Proof.
  intros HF Hfg. induction HF as [|x y l1 l2 Hxy HF IH]; [done|].
  cbn [List.filter]. rewrite (Hfg x y Hxy).
  destruct (g y); cbn [length]; by rewrite IH.
Qed.

Lemma filter_comm {A : Type} (f g : A -> bool) (l : list A) :
  List.filter f (List.filter g l) = List.filter g (List.filter f l).
Proof.
  induction l as [|x l IH]; [done|]. cbn [List.filter].
  destruct (f x) eqn:Ef, (g x) eqn:Eg; cbn [List.filter];
    rewrite ?Ef, ?Eg; congruence.
Qed.

Lemma filter_eq_NoDup (x : nat) (l : list nat) :
  NoDup l ->
  (length (List.filter (fun r => bool_decide (r = x)) l) <= 1)%nat.
Proof.
  induction 1 as [|y l Hy Hnd IH]; [cbn; lia|]. cbn [List.filter].
  case_bool_decide as E; [|done]. subst y. cbn [length].
  assert (List.filter (fun r => bool_decide (r = x)) l = []) as ->;
    [|cbn; lia].
  clear IH Hnd. induction l as [|z l IHl]; [done|]. cbn [List.filter].
  apply not_elem_of_cons in Hy as [Hz Hl].
  rewrite bool_decide_eq_false_2 by congruence. by apply IHl.
Qed.

Lemma filter_length_le {A : Type} (f : A -> bool) (l : list A) :
  (length (List.filter f l) <= length l)%nat.
Proof.
  induction l as [|x l IH]; [done|]. cbn [List.filter].
  destruct (f x); cbn [length]; lia.
Qed.

(** Among the events that survive the merge, a key occurs at most once. *)
Lemma survivors_key_once (schedule : DaySchedule) (k : string) :
  (length
     (List.filter
        (fun r => bool_decide
           (continuationGroup (created_events schedule !!! r) = Some k))
        (List.filter
           (survives (created_events schedule)
                     (processedEvents (layout schedule)))
           (processedEvents (layout schedule)))) <= 1)%nat.
Proof.
  rewrite filter_comm.
  fold (group_members (created_events schedule)
          (processedEvents (layout schedule)) k).
  destruct (decide (length (group_members (created_events schedule)
              (processedEvents (layout schedule)) k) <= 1)%nat)
    as [Hsmall|Hbig].
  - etrans; [apply filter_length_le|done].
  - destruct (group_members (created_events schedule)
                (processedEvents (layout schedule)) k)
      as [|first g] eqn:Eg; [simpl in Hbig; lia|].
    rewrite (List.filter_ext_in _
               (fun r => bool_decide (r = first))).
    + apply filter_eq_NoDup. rewrite <- Eg. unfold group_members.
      apply NoDup_ListNoDup, List.NoDup_filter, NoDup_ListNoDup, pe_NoDup.
    + intros r Hr. rewrite <- Eg in Hr.
      apply list_elem_of_In, group_members_elem in Hr as [_ Hkey].
      unfold survives, role_of. rewrite Hkey, Eg.
      rewrite (proj2 (Nat.leb_gt _ _)) by lia. cbn [head].
      destruct (last (first :: g)) as [lastRef|] eqn:El;
        [|by apply last_None in El].
      by case_bool_decide.
Qed.

Lemma merged_keys (schedule : DaySchedule) :
  Forall2
    (fun m r =>
       (m < length (merged_store schedule))%nat /\
       continuationGroup (merged_store schedule !!! m)
       = continuationGroup (created_events schedule !!! r))
    (mergedEvents (layout schedule))
    (List.filter
       (survives (created_events schedule)
                 (processedEvents (layout schedule)))
       (processedEvents (layout schedule))).
Proof.
  destruct (merged_store_spec schedule) as (ex & _ & HF).
  apply Forall2_same_length_lookup_2; [by eapply Forall2_length|].
  intros i m r Hm Hr.
  pose proof (Forall2_lookup_lr _ _ _ _ _ _ HF Hm Hr) as HP.
  assert (Hin : r ∈ processedEvents (layout schedule)).
  { apply survivor_in_pe, list_elem_of_In, list_elem_of_lookup.
    by exists i. }
  pose proof (merged_store_length schedule) as Hlen.
  cbv beta in HP.
  destruct (role_of _ _ r) as [|lastRef|] eqn:Er.
  - subst m. rewrite merged_store_old by done.
    apply pe_bound in Hin. split; [lia|done].
  - destruct HP as [_ HP]. split; [by eapply lookup_lt_Some|].
    by rewrite (list_lookup_total_correct _ _ _ HP).
  - subst m. rewrite merged_store_old by done.
    apply pe_bound in Hin. split; [lia|done].
Qed.

(** X15 — The merge is idempotent: run again on the store and the array it
    produced, it allocates nothing and returns the same array. *)
Theorem X15_merge_idempotent (schedule : DaySchedule) :
  merge_stage (merged_store schedule) (mergedEvents (layout schedule))
  = (merged_store schedule, mergedEvents (layout schedule)).
Proof.
  pose proof (merged_keys schedule) as HF.
  assert (Hrel : forall m, m ∈ mergedEvents (layout schedule) ->
    (m < length (merged_store schedule))%nat /\
    exists r, r ∈ processedEvents (layout schedule) /\
      continuationGroup (merged_store schedule !!! m)
      = continuationGroup (created_events schedule !!! r)).
  { intros m Hm. apply list_elem_of_lookup in Hm as [n Hn].
    destruct (Forall2_lookup_l _ _ _ _ _ HF Hn) as (r & Hr & Hb & Hk).
    split; [done|]. exists r. split; [|done].
    apply survivor_in_pe, list_elem_of_In, list_elem_of_lookup.
    by exists n. }
  apply merge_stage_all_pass.
  - intros m Hm. by apply Hrel.
  - intros m k Hm Hk. destruct (Hrel m Hm) as (_ & r & Hr & E).
    rewrite E in Hk. by eapply pe_keys.
  - intros m _. apply role_of_small_groups. intros k.
    unfold group_members.
    rewrite (Forall2_filter_length _ _
               (fun r => bool_decide
                  (continuationGroup (created_events schedule !!! r)
                   = Some k)) _ _ HF).
    + apply survivors_key_once.
    + intros x y [_ E]. by rewrite E.
Qed.

(** ** Which colours can come out *)

Lemma fold_insert_lookup_inv {V : Type} (l : list (string * V))
    (m0 : gmap string V) (k : string) (v : V) :
  fold_left (fun m kv => <[kv.1 := kv.2]> m) l m0 !! k = Some v ->
  m0 !! k = Some v \/ (k, v) ∈ l.
Proof.
  revert m0. induction l as [|[k' v'] l IH]; intros m0 H; [by left|].
  cbn [fold_left fst snd] in H. apply IH in H as [H|H].
  - destruct (decide (k' = k)) as [->|Hne].
    + rewrite lookup_insert_eq in H. injection H as ->. right. by left.
    + rewrite lookup_insert_ne in H by done. by left.
  - right. by right.
Qed.

Lemma courseColorMap_inv (COURSE_CODES : list string)
    (COLOR_SCHEMES : list ColorScheme) (code : string)
    (v : option ColorScheme) :
  courseColorMap COURSE_CODES COLOR_SCHEMES !! code = Some v ->
  exists index,
    COURSE_CODES !! index = Some code /\
    v = array_get COLOR_SCHEMES
          (scheme_index index (length COLOR_SCHEMES)).
Proof.
  unfold courseColorMap. intros [H|H]%fold_insert_lookup_inv; [done|].
  unfold color_entries in H.
  apply elem_of_lookup_imap in H as (index & c & [= -> ->] & Hi).
  by exists index.
Qed.

Lemma array_get_scheme (COLOR_SCHEMES : list ColorScheme) (index : nat)
    (c : ColorScheme) :
  array_get COLOR_SCHEMES (scheme_index index (length COLOR_SCHEMES))
  = Some c ->
  exists j, COLOR_SCHEMES !! j = Some c /\
            (j + 1 < length COLOR_SCHEMES)%nat /\
            (index mod length COLOR_SCHEMES = j + 1)%nat.
Proof.
  unfold array_get, scheme_index, js_rem.
  destruct (length COLOR_SCHEMES =? 0)%nat eqn:E0; [done|].
  apply Nat.eqb_neq in E0. cbn [fmap option_fmap option_map].
  destruct (_ <? 0)%Z eqn:Eneg; [done|]. apply Z.ltb_ge in Eneg.
  intros H. eexists. split; [exact H|].
  pose proof (Nat.mod_upper_bound index (length COLOR_SCHEMES) E0).
  rewrite <- Nat2Z.inj_mod in *. lia.
Qed.

(** X16 — [getCourseColor] returns [DEFAULT_COLOR] or a scheme of the table,
    and the scheme it takes from the table is never the one at the last
    index: the shift by one of line 42 leaves that entry unused. *)
Theorem X16_last_scheme_unused (COURSE_CODES : list string)
    (COLOR_SCHEMES : list ColorScheme) (DEFAULT_COLOR : ColorScheme)
    (value : string) :
  getCourseColor COURSE_CODES COLOR_SCHEMES DEFAULT_COLOR value
  = DEFAULT_COLOR \/
  exists j,
    COLOR_SCHEMES !! j
    = Some (getCourseColor COURSE_CODES COLOR_SCHEMES DEFAULT_COLOR value) /\
    (j + 1 < length COLOR_SCHEMES)%nat.
Proof.
  unfold getCourseColor.
  destruct (Pattern.course_code value) as [code|]; [|by left].
  destruct (courseColorMap _ _ !! code) as [[c|]|] eqn:E; [|by left..].
  right. apply courseColorMap_inv in E as (index & _ & E).
  symmetry in E. apply array_get_scheme in E as (j & Hj & Hlt & _).
  by exists j.
Qed.

(** X17 — When the codes of the table are distinct, a value whose code has
    index [i] with a non-zero remainder [i % COLOR_SCHEMES.length] gets the
    scheme at that remainder minus one. *)
Theorem X17_scheme_shifted_by_one (COURSE_CODES : list string)
    (COLOR_SCHEMES : list ColorScheme) (DEFAULT_COLOR : ColorScheme)
    (value code : string) (index j : nat) :
  NoDup COURSE_CODES ->
  COURSE_CODES !! index = Some code ->
  js_rem index (length COLOR_SCHEMES) = Some (Z.of_nat (j + 1)) ->
  Pattern.course_code value = Some code ->
  exists c, COLOR_SCHEMES !! j = Some c /\
    getCourseColor COURSE_CODES COLOR_SCHEMES DEFAULT_COLOR value = c.
Proof.
  intros Hnd Hi Hrem Hv.
  assert (Hj : (j < length COLOR_SCHEMES)%nat).
  { unfold js_rem in Hrem.
    destruct (length COLOR_SCHEMES =? 0)%nat eqn:E0; [done|].
    apply Nat.eqb_neq in E0. injection Hrem as Hrem.
    pose proof (Nat.mod_upper_bound index (length COLOR_SCHEMES) E0).
    rewrite <- Nat2Z.inj_mod in Hrem. lia. }
  destruct (lookup_lt_is_Some_2 _ _ Hj) as [c Hc]. exists c.
  split; [done|]. unfold getCourseColor. rewrite Hv.
  assert (Hmap : courseColorMap COURSE_CODES COLOR_SCHEMES !! code
                 = Some (Some c)); [|by rewrite Hmap].
  assert (Hget : array_get COLOR_SCHEMES
                   (scheme_index index (length COLOR_SCHEMES)) = Some c).
  { unfold scheme_index. rewrite Hrem. cbn.
    replace (Z.of_nat (j + 1) - 1)%Z with (Z.of_nat j) by lia.
    destruct (Z.of_nat j <? 0)%Z eqn:En; [apply Z.ltb_lt in En; lia|].
    by rewrite Nat2Z.id. }
  unfold courseColorMap. apply fold_insert_lookup.
  - intros kv Hkv Hk. unfold color_entries in Hkv.
    apply elem_of_lookup_imap in Hkv as (index' & c' & -> & Hi').
    cbn [fst snd] in *. subst c'.
    by rewrite (NoDup_lookup _ _ _ _ Hnd Hi' Hi).
  - right. exists (code, Some c). split; [|done].
    unfold color_entries. rewrite <- Hget.
    exact (elem_of_lookup_imap_2
             (fun index code =>
                (code, array_get COLOR_SCHEMES
                         (scheme_index index (length COLOR_SCHEMES))))
             COURSE_CODES code index Hi).
Qed.

Lemma X17_scheme_shifted_by_one_witness :
  let codes := ["101"; "201"; "301"]%string in
  let schemes := [Build_ColorScheme "bg-red" "border-red" "text-red";
                  Build_ColorScheme "bg-blue" "border-blue" "text-blue"] in
  let default := Build_ColorScheme "bg-gray" "border-gray" "text-gray" in
  exists c, schemes !! 0%nat = Some c /\
    getCourseColor codes schemes default "CE 1A 201" = c.
Proof.
  apply (X17_scheme_shifted_by_one
           ["101"; "201"; "301"]%string
           [Build_ColorScheme "bg-red" "border-red" "text-red";
            Build_ColorScheme "bg-blue" "border-blue" "text-blue"]
           (Build_ColorScheme "bg-gray" "border-gray" "text-gray")
           "CE 1A 201" "201" 1 0).
  - apply (bool_decide_unpack _). by vm_compute.
  - reflexivity.
  - reflexivity.
  - by vm_compute.
Defined.

(** X18 — A value in which the pattern finds a code that is not in the
    table gets [DEFAULT_COLOR], as does a value without any three-digit
    word. *)
Theorem X18_unknown_code_gets_default (COURSE_CODES : list string)
    (COLOR_SCHEMES : list ColorScheme) (DEFAULT_COLOR : ColorScheme)
    (value : string) :
  (forall code, Pattern.course_code value = Some code ->
     code ∉ COURSE_CODES) ->
  getCourseColor COURSE_CODES COLOR_SCHEMES DEFAULT_COLOR value
  = DEFAULT_COLOR.
Proof.
  intros Hun. unfold getCourseColor.
  destruct (Pattern.course_code value) as [code|]; [|done].
  destruct (courseColorMap _ _ !! code) as [[c|]|] eqn:E; [|done..].
  apply courseColorMap_inv in E as (index & Hi & _).
  destruct (Hun code eq_refl). apply list_elem_of_lookup. by exists index.
Qed.

Lemma X18_unknown_code_gets_default_witness :
  getCourseColor ["101"; "201"]%string
    [Build_ColorScheme "bg-red" "border-red" "text-red"]
    (Build_ColorScheme "bg-gray" "border-gray" "text-gray") "CE 1A 999"
  = Build_ColorScheme "bg-gray" "border-gray" "text-gray".
Proof.
  apply X18_unknown_code_gets_default.
  intros code H. vm_compute in H. injection H as <-.
  intros Hin. repeat (apply elem_of_cons in Hin as [Hin|Hin];
                      [discriminate Hin|]).
  inversion Hin.
Defined.

(** ** The continuation key and the colour code *)

Lemma first_match_split (at_head : list ascii -> option (list ascii))
    (l m : list ascii) :
  Pattern.first_match at_head l = Some m ->
  exists pre suf, l = pre ++ suf /\ at_head suf = Some m.
Proof.
  induction l as [|c l IH]; cbn [Pattern.first_match].
  - destruct (at_head []) eqn:E; [|done]. intros [= ->]. by exists [], [].
  - destruct (at_head (c :: l)) eqn:E.
    + intros [= ->]. by exists [], (c :: l).
    + intros (pre & suf & -> & H)%IH. by exists (c :: pre), suf.
Qed.

Lemma upper_not_digit (c : ascii) :
  Str.is_upper c = true -> Str.is_digit c = false.
Proof.
  unfold Str.is_upper, Str.is_digit, Str.between.
  rewrite andb_true_iff, andb_false_iff, !Nat.leb_le, !Nat.leb_gt. lia.
Qed.

Lemma digit_is_word (c : ascii) : Str.is_digit c = true -> Str.is_word c = true.
Proof. unfold Str.is_word. by intros ->. Qed.

Lemma upper_is_word (c : ascii) : Str.is_upper c = true -> Str.is_word c = true.
Proof. unfold Str.is_word. intros ->. by rewrite orb_true_r. Qed.

Lemma course_code_of_key_chars (d u d1 d2 d3 : ascii) :
  Str.is_digit d = true -> Str.is_upper u = true ->
  Str.is_digit d1 = true -> Str.is_digit d2 = true ->
  Str.is_digit d3 = true ->
  Pattern.course_code_from None
    ["C"; "E"; " "; d; u; " "; d1; d2; d3]%char
  = Some [d1; d2; d3].
Proof.
  intros Hd Hu H1 H2 H3.
  cbn [Pattern.course_code_from Pattern.is_word_opt head].
  change (Str.is_digit "C") with false.
  change (Str.is_word "C") with true.
  change (Str.is_word "E") with true.
  change (Str.is_word " ") with false.
  rewrite (digit_is_word d Hd), (upper_is_word u Hu).
  rewrite Hd, (upper_not_digit u Hu), H1, H2, H3.
  reflexivity.
Qed.

(** X19 — A continuation key is a piece of the value, nine characters long:
    ["CE "], a digit, a capital letter, a space and three digits; the code
    that decides the colour of a value equal to such a key is made of its
    last three digits. *)
Theorem X19_continuation_key_shape (v k : string) :
  Pattern.continuation_key v = Some k ->
  (exists pre post, Str.chars v = pre ++ Str.chars k ++ post) /\
  (exists d u d1 d2 d3,
     Str.is_digit d = true /\ Str.is_upper u = true /\
     Str.is_digit d1 = true /\ Str.is_digit d2 = true /\
     Str.is_digit d3 = true /\
     Str.chars k = ["C"; "E"; " "; d; u; " "; d1; d2; d3]%char /\
     Pattern.course_code k = Some (Str.of_chars [d1; d2; d3])).
Proof.
  unfold Pattern.continuation_key. intros H.
  apply fmap_Some in H as (m & Hm & ->).
  apply first_match_split in Hm as (pre & suf & Hv & Hat).
  unfold Pattern.continuation_at in Hat.
  destruct suf as [|c0 [|c1 [|c2 [|d [|u [|c5 [|d1 [|d2 [|d3 suf]]]]]]]]];
    try done.
  destruct (_ && _)%bool eqn:Ec in Hat; [|done]. injection Hat as <-.
  repeat (apply andb_prop in Ec as [Ec ?]).
  repeat match goal with
         | H : Str.ceqb _ _ = true |- _ => apply ceqb_eq in H; subst
         end.
  cbn [take]. rewrite chars_of_chars. split.
  - exists pre, suf. by rewrite Hv.
  - exists d, u, d1, d2, d3. repeat (split; [done|]).
    unfold Pattern.course_code. rewrite chars_of_chars.
    by rewrite course_code_of_key_chars.
Qed.

Lemma X19_continuation_key_shape_witness :
  (exists pre post,
     Str.chars "Lab CE 1A 101 (room 2)" = pre ++ Str.chars "CE 1A 101" ++ post)
  /\
  (exists d u d1 d2 d3,
     Str.is_digit d = true /\ Str.is_upper u = true /\
     Str.is_digit d1 = true /\ Str.is_digit d2 = true /\
     Str.is_digit d3 = true /\
     Str.chars "CE 1A 101" = ["C"; "E"; " "; d; u; " "; d1; d2; d3]%char /\
     Pattern.course_code "CE 1A 101" = Some (Str.of_chars [d1; d2; d3])).
Proof.
  apply (X19_continuation_key_shape "Lab CE 1A 101 (room 2)" "CE 1A 101").
  by vm_compute.
Defined.

(** ** Horizontal placement *)

(** X20 — The merged event of a group is rendered as such, and when its
    slot had a single line it takes the full width at the left edge, whether
    or not it overlaps other events: its flag is never set. *)
Theorem X20_merged_event_full_width (schedule : DaySchedule)
    (r lastRef : nat) :
  r ∈ processedEvents (layout schedule) ->
  role_of (created_events schedule) (processedEvents (layout schedule)) r
  = Head lastRef ->
  let e := merged_event (created_events schedule !!! r)
                        (created_events schedule !!! lastRef) in
  e ∈ rendered schedule /\
  (totalSplits e = Some 1%nat ->
   event_width e = Literal "calc(100% - 1rem)" /\
   event_left e = Literal "0").
Proof.
  intros Hr Hrole e. split.
  - assert (Hs : In r (List.filter
              (survives (created_events schedule)
                 (processedEvents (layout schedule)))
              (processedEvents (layout schedule)))).
    { apply filter_In. split; [by apply list_elem_of_In|].
      unfold survives. by rewrite Hrole. }
    apply list_elem_of_In, list_elem_of_lookup in Hs as [n Hn].
    destruct (merged_store_spec schedule) as (ex & _ & HF).
    destruct (Forall2_lookup_r _ _ _ _ _ HF Hn) as (m & Hm & HP).
    cbv beta in HP. rewrite Hrole in HP. destruct HP as [Hfresh HP].
    unfold rendered. apply list_elem_of_In, in_map_iff. exists m. split.
    + by rewrite (list_lookup_total_correct _ _ _
                    (store_fresh schedule m _ Hfresh HP)).
    + apply list_elem_of_In, list_elem_of_lookup. by exists n.
  - intros Ht.
    assert (Hflag : isOverlapping e = None).
    { change (isOverlapping (created_events schedule !!! r) = None).
      apply (created_events_fresh schedule), list_elem_of_lookup.
      exists r. by apply pe_lookup_total. }
    unfold event_width, event_left. by rewrite Ht, Hflag.
Qed.

Lemma X20_merged_event_full_width_witness :
  let e := merged_event (created_events scenario3 !!! 0%nat)
                        (created_events scenario3 !!! 1%nat) in
  e ∈ rendered scenario3 /\
  (totalSplits e = Some 1%nat ->
   event_width e = Literal "calc(100% - 1rem)" /\
   event_left e = Literal "0").
Proof.
  apply (X20_merged_event_full_width scenario3 0 1).
  - vm_compute. apply list_elem_of_here.
  - by vm_compute.
Defined.




(** ** A day without events *)

Lemma head_survives (h : list PositionedEvent) (r : nat) (l : list nat) :
  survives h (r :: l) r = true.
Proof.
  unfold survives, role_of.
  destruct (continuationGroup (h !!! r)) as [k|] eqn:Ek; [|done].
  unfold group_members. cbn [List.filter].
  rewrite bool_decide_eq_true_2 by done.
  destruct (length _ <=? 1)%nat; [done|]. cbn [head].
  destruct (last _) as [lastRef|] eqn:El; [|by apply last_None in El].
  by rewrite bool_decide_eq_true_2.
Qed.

Lemma created_events_nil (schedule : DaySchedule) :
  created_events schedule = [] <->
  forall slot v, slot ∈ data schedule -> TimeSlot.value slot = Some v ->
                 Forall (fun c => c = "010"%char) (Str.chars v).
Proof.
  split.
  - intros Hnil slot v Hs Hv.
    destruct (has_value slot) eqn:Hhas.
    + apply splitEventValue_nil. rewrite splitEventValue_lines.
      change (non_empty_lines v)
        with (non_empty_lines (default EmptyString (Some v))).
      rewrite <- Hv. fold (slot_lines slot).
      destruct (slot_lines slot) as [|line lines] eqn:El; [done|].
      exfalso.
      assert (He : exists e, slot_events slot !! 0%nat = Some e).
      { eexists. apply slot_events_lookup. exists line.
        by rewrite El. }
      destruct He as [e He].
      assert (Hin : e ∈ created_events schedule).
      { apply created_events_elem. exists slot.
        split; [done|]. split; [done|].
        apply list_elem_of_lookup. by exists 0%nat. }
      rewrite Hnil in Hin. inversion Hin.
    + unfold has_value in Hhas. rewrite Hv in Hhas.
      destruct v; [constructor|done].
  - intros Hall.
    destruct (created_events schedule) as [|e es] eqn:E; [done|].
    exfalso.
    assert (Hin : e ∈ created_events schedule) by (rewrite E; by left).
    apply created_events_elem in Hin as (slot & Hs & Hhas & He).
    apply list_elem_of_lookup in He as [k Hk].
    apply slot_events_lookup in Hk as (line & Hl & _).
    unfold has_value in Hhas.
    destruct (TimeSlot.value slot) as [v|] eqn:Hv; [|done].
    specialize (Hall slot v Hs Hv).
    apply splitEventValue_nil in Hall.
    unfold slot_lines in Hl. rewrite Hv in Hl.
    change (default EmptyString (Some v)) with v in Hl.
    rewrite <- splitEventValue_lines, Hall in Hl. done.
Qed.

(** X22 — Nothing is rendered exactly when no slot has a non-empty line:
    the value of every slot is absent, empty, or made of line feeds only.
    As soon as some slot has a non-empty line, at least one event is
    rendered, merge or not. *)
Theorem X22_empty_day (schedule : DaySchedule) :
  rendered schedule = [] <->
  forall slot v, slot ∈ data schedule -> TimeSlot.value slot = Some v ->
                 Forall (fun c => c = "010"%char) (Str.chars v).
Proof.
  rewrite <- created_events_nil.
  destruct (merged_store_spec schedule) as (ex & _ & HF).
  apply Forall2_length in HF.
  pose proof (pe_perm schedule) as Hperm.
  unfold rendered. split.
  - intros Hnil. apply (f_equal length) in Hnil.
    rewrite length_map in Hnil. cbn [length] in Hnil.
    destruct (processedEvents (layout schedule)) as [|r l] eqn:Epe.
    + apply Permutation_length in Hperm. rewrite length_seq in Hperm.
      cbn [length] in Hperm. by apply nil_length_inv.
    + cbn [List.filter] in HF. rewrite head_survives in HF.
      cbn [length] in HF. lia.
  - intros Hnil. rewrite Hnil in Hperm. cbn [length seq] in Hperm.
    apply Permutation_nil_r in Hperm. rewrite Hperm in HF.
    cbn [List.filter length] in HF. apply nil_length_inv in HF.
    by rewrite HF.
Qed.
